(** * Yeelight ambilight: a shallow embedding of [yeelight_ambilight/main.py]

    The development follows the layout of the Python module:
    [CommandPayload] (command records, the class-level identifier counter,
    the memoised colour packing and the wire encoding), [LampController]
    (one socket per command), [ScreenController] (colour reduction) and
    [Ambilight] (construction and the worker loop).

    Python integers are unbounded, so they are modelled by [Z]; [//] with a
    positive divisor is [Z.div].  Python [str] values are modelled by
    [string], one character per code point below 256 (every string the
    module builds itself is ASCII).  Exceptions are values of [exception]
    carried by [result]; stateful code runs in the monad [M] over [world],
    and an exception keeps the effects performed before it was raised. *)

From Stdlib Require Import ZArith QArith List String Ascii Bool Lia Permutation.
From Stdlib Require Import DecimalString DecimalPos DecimalZ.
Import ListNotations.
Local Open Scope Z_scope.
Local Open Scope string_scope.

(** ** Exceptions and results *)

(** The exception classes that matter to the module.  [ZeroDivisionError]
    is raised by [//]; [ConnectionError] stands for the [OSError] family
    raised by [socket.connect] and [socket.send].  [SamplingError] is kept
    as a name only: no statement of the module raises it. *)
Inductive exception : Type :=
| ZeroDivisionError
| ConnectionError
| SamplingError.

Inductive result (A : Type) : Type :=
| Ok (a : A)
| Raise (e : exception).
Arguments Ok {A} a.
Arguments Raise {A} e.

(** ** The world: class-level state, the outside, and what was done to it *)

Definition rgb : Type := (Z * Z * Z)%type.

(** One entry of [Image.getcolors]: the pixel count first, the colour
    second. *)
Definition color_entry : Type := (Z * rgb)%type.

(** What the program does to the outside, oldest first.  Sockets and
    screen grabs are numbered in creation order. *)
Inductive event : Type :=
| EvSocket (sock : nat)
| EvConnect (sock : nat) (ip : string) (port : Z)
| EvConnectFailed (sock : nat) (ip : string) (port : Z)
| EvSend (sock : nat) (written : string)
| EvSendFailed (sock : nat)
| EvClose (sock : nat)
| EvGrab (shot : nat) (box : Z * Z * Z * Z)
| EvLog (status : Z)
| EvSleep (seconds : Q).

(** What the outside answers.  [connect_result k] is the outcome of
    [connect] on the [k]-th socket ([None]: connected); [send_result k
    data] is the outcome of [send data] on it, the number of bytes the
    transport accepts.  [screen_resolution] and [screen_colors] answer the
    [k]-th grab; [elapsed k] is the wall time the work of cycle [k] took
    and [stop_requested k] tells whether the controlling thread called
    [stop] while cycle [k] was running. *)
Record environment : Type := mkEnvironment {
  connect_result : nat -> option exception;
  send_result : nat -> string -> result nat;
  screen_resolution : nat -> Z * Z;
  screen_colors : nat -> Z * Z * Z * Z -> list color_entry;
  elapsed : nat -> Q;
  stop_requested : nat -> bool
}.

Record world : Type := mkWorld {
  env : environment;
  _next_id : Z;                          (* CommandPayload._next_id *)
  convert_rgb_cache : list (rgb * Z);    (* lru_cache, most recent first *)
  _running : bool;                       (* Ambilight._running *)
  sockets_made : nat;
  grabs_made : nat;
  cycles_done : nat;
  trace : list event
}.

(** The class body sets [_next_id] to [-1]; nothing is cached yet. *)
Definition initial_world (e : environment) : world :=
  mkWorld e (-1) [] false 0 0 0 [].

Definition set_next_id (v : Z) (w : world) : world :=
  mkWorld (env w) v (convert_rgb_cache w) (_running w)
          (sockets_made w) (grabs_made w) (cycles_done w) (trace w).

Definition set_cache (c : list (rgb * Z)) (w : world) : world :=
  mkWorld (env w) (_next_id w) c (_running w)
          (sockets_made w) (grabs_made w) (cycles_done w) (trace w).

Definition set_running (b : bool) (w : world) : world :=
  mkWorld (env w) (_next_id w) (convert_rgb_cache w) b
          (sockets_made w) (grabs_made w) (cycles_done w) (trace w).

Definition set_sockets_made (n : nat) (w : world) : world :=
  mkWorld (env w) (_next_id w) (convert_rgb_cache w) (_running w)
          n (grabs_made w) (cycles_done w) (trace w).

Definition set_grabs_made (n : nat) (w : world) : world :=
  mkWorld (env w) (_next_id w) (convert_rgb_cache w) (_running w)
          (sockets_made w) n (cycles_done w) (trace w).

Definition set_cycles_done (n : nat) (w : world) : world :=
  mkWorld (env w) (_next_id w) (convert_rgb_cache w) (_running w)
          (sockets_made w) (grabs_made w) n (trace w).

Definition emit (ev : event) (w : world) : world :=
  mkWorld (env w) (_next_id w) (convert_rgb_cache w) (_running w)
          (sockets_made w) (grabs_made w) (cycles_done w) (trace w ++ [ev]).

(** ** The monad of stateful, fallible code *)

Definition M (A : Type) : Type := world -> result A * world.

Definition ret {A : Type} (a : A) : M A := fun w => (Ok a, w).

Definition bind {A B : Type} (c : M A) (k : A -> M B) : M B :=
  fun w =>
    match c w with
    | (Ok a, w') => k a w'
    | (Raise e, w') => (Raise e, w')
    end.

Definition raise {A : Type} (e : exception) : M A := fun w => (Raise e, w).

Definition lift {A : Type} (r : result A) : M A := fun w => (r, w).

Definition gets {A : Type} (f : world -> A) : M A := fun w => (Ok (f w), w).

Definition modify (f : world -> world) : M unit := fun w => (Ok tt, f w).

(** [try: body finally: cleanup]: the cleanup runs on both exits and the
    outcome of the body is kept. *)
Definition try_finally {A : Type} (body : M A) (cleanup : M unit) : M A :=
  fun w =>
    match body w with
    | (r, w') =>
        match cleanup w' with
        | (Ok _, w'') => (r, w'')
        | (Raise e, w'') => (Raise e, w'')
        end
    end.

Declare Scope monad_scope.
Delimit Scope monad_scope with monad.
Notation "x <- c ;; k" := (bind c (fun x => k))
  (at level 61, c at next level, right associativity) : monad_scope.
Notation "c ;; k" := (bind c (fun _ => k))
  (at level 61, right associativity) : monad_scope.
Local Open Scope monad_scope.

(** ** JSON as [json.dumps] writes it *)

Set Warnings "-register-all".

Inductive json : Type :=
| JInt (z : Z)
| JStr (s : string)
| JList (items : list json)
| JObject (members : list (string * json)).

Definition CRLF : string := String "013" (String "010" EmptyString).

Definition hex_digit (n : N) : ascii :=
  match n with
  | 0 => "0" | 1 => "1" | 2 => "2" | 3 => "3" | 4 => "4" | 5 => "5"
  | 6 => "6" | 7 => "7" | 8 => "8" | 9 => "9" | 10 => "a" | 11 => "b"
  | 12 => "c" | 13 => "d" | 14 => "e" | _ => "f"
  end%N%char.

(** [json.encoder.py_encode_basestring_ascii] on one character: the
    backslash and the quote are escaped, the short escapes are used where
    they exist, and whatever lies outside [' '..'~'] becomes [\u00xx].
    The strings of this model hold code points below 256 only; the code
    points from 256 on, which Python writes with four hexadecimal digits
    or as a surrogate pair, are outside the model. *)
Definition escape_char (c : ascii) : string :=
  let n := N_of_ascii c in
  if (n =? 34)%N then String "\" (String "034" EmptyString)
  else if (n =? 92)%N then "\\"
  else if (n =? 8)%N then "\b"
  else if (n =? 12)%N then "\f"
  else if (n =? 10)%N then "\n"
  else if (n =? 13)%N then "\r"
  else if (n =? 9)%N then "\t"
  else if ((32 <=? n) && (n <=? 126))%N then String c EmptyString
  else "\u00" ++ String (hex_digit (n / 16)) (String (hex_digit (n mod 16)) EmptyString).

Fixpoint escape_string (s : string) : string :=
  match s with
  | EmptyString => EmptyString
  | String c rest => escape_char c ++ escape_string rest
  end.

Definition quote : string := String "034" EmptyString.

Definition dumps_str (s : string) : string := quote ++ escape_string s ++ quote.

Definition dumps_int (z : Z) : string := NilZero.string_of_int (Z.to_int z).

(** [json.dumps] with its default separators [", "] and [": "]. *)
Fixpoint json_dumps (j : json) : string :=
  match j with
  | JInt z => dumps_int z
  | JStr s => dumps_str s
  | JList items =>
      "[" ++
      (fix dump_items (l : list json) : string :=
         match l with
         | [] => EmptyString
         | x :: rest =>
             match rest with
             | [] => json_dumps x
             | _ :: _ => json_dumps x ++ ", " ++ dump_items rest
             end
         end) items ++ "]"
  | JObject members =>
      "{" ++
      (fix dump_members (l : list (string * json)) : string :=
         match l with
         | [] => EmptyString
         | (k, v) :: rest =>
             match rest with
             | [] => dumps_str k ++ ": " ++ json_dumps v
             | _ :: _ => dumps_str k ++ ": " ++ json_dumps v ++ ", " ++ dump_members rest
             end
         end) members ++ "}"
  end.

Definition object_keys (j : json) : list string :=
  match j with
  | JObject members => map fst members
  | _ => []
  end.

(** ** CommandPayload *)

Module CommandPayload.

(** An element of [params]: [int | str]. *)
Inductive param : Type :=
| PInt (z : Z)
| PStr (s : string).

(** The instance attributes [__init__] stores.  The fourth dataclass
    field, [_next_id], is declared with [init=False] and a plain default:
    [__init__] does not store it, it stays a class attribute (the field
    [_next_id] of [world]) and reading it through an instance reads the
    class attribute. *)
Record t : Type := mk {
  id : Z;
  method : string;
  params : list param
}.

(** [__new__]: the class counter is advanced before the object exists. *)
Definition __new__ : M unit :=
  modify (fun w => set_next_id (_next_id w + 1) w).

(** The generated [__init__]: [id] takes the value of its default factory,
    [CommandPayload._next_id] at that moment. *)
Definition __init__ (method_ : string) (params_ : list param) : M t :=
  id_ <- gets _next_id ;;
  ret (mk id_ method_ params_).

(** The call [cls(method, params)]. *)
Definition cls (method_ : string) (params_ : list param) : M t :=
  __new__ ;;
  __init__ method_ params_.

Definition param_json (p : param) : json :=
  match p with
  | PInt z => JInt z
  | PStr s => JStr s
  end.

(** [dataclasses.asdict]: one member per dataclass field ([id], [method],
    [params] and [_next_id], in declaration order), each read with
    [getattr] on the instance. *)
Definition asdict (self : t) : M json :=
  next <- gets _next_id ;;
  ret (JObject [("id", JInt (id self));
                ("method", JStr (method self));
                ("params", JList (map param_json (params self)));
                ("_next_id", JInt next)]).

(** [as_bytes].  [json.dumps] escapes everything outside ASCII, so the
    UTF-8 encoding has one byte per character of the text. *)
Definition as_bytes (self : t) : M string :=
  d <- asdict self ;;
  ret (json_dumps d ++ CRLF).

(** The function under [lru_cache]. *)
Definition pack (r g b : Z) : Z := (r * 65536) + (g * 256) + b.

Definition lru_maxsize : nat := 128.

Definition key_eqb (k1 k2 : rgb) : bool :=
  let '(r1, g1, b1) := k1 in
  let '(r2, g2, b2) := k2 in
  ((r1 =? r2) && (g1 =? g2) && (b1 =? b2))%Z.

Fixpoint cache_lookup (key : rgb) (cache : list (rgb * Z)) : option Z :=
  match cache with
  | [] => None
  | (k, v) :: rest => if key_eqb key k then Some v else cache_lookup key rest
  end.

Fixpoint cache_remove (key : rgb) (cache : list (rgb * Z)) : list (rgb * Z) :=
  match cache with
  | [] => []
  | (k, v) :: rest =>
      if key_eqb key k then cache_remove key rest else (k, v) :: cache_remove key rest
  end.

(** [convert_rgb] behind [lru_cache]: a hit returns the stored value and
    makes the entry the most recent one, a miss computes, stores and drops
    the least recent entry beyond [lru_maxsize]. *)
Definition convert_rgb (r g b : Z) : M Z :=
  cache <- gets convert_rgb_cache ;;
  match cache_lookup (r, g, b) cache with
  | Some v =>
      modify (set_cache (((r, g, b), v) :: cache_remove (r, g, b) cache)) ;;
      ret v
  | None =>
      let v := pack r g b in
      modify (set_cache (firstn lru_maxsize (((r, g, b), v) :: cache))) ;;
      ret v
  end.

Definition default_effect : string := "smooth".
Definition default_duration : Z := 500.

Definition bg_set_rgb (r g b : Z) (effect : string) (duration : Z) : M t :=
  packed <- convert_rgb r g b ;;
  cls "bg_set_rgb" [PInt packed; PStr effect; PInt duration].

Definition bg_set_bright (value : Z) (effect : string) (duration : Z) : M t :=
  cls "bg_set_bright" [PInt value; PStr effect; PInt duration].

(** A call of one of the two builders, and a run of such calls. *)
Inductive builder_call : Type :=
| CallSetRgb (r g b : Z) (effect : string) (duration : Z)
| CallSetBright (value : Z) (effect : string) (duration : Z).

Definition build (c : builder_call) : M t :=
  match c with
  | CallSetRgb r g b effect duration => bg_set_rgb r g b effect duration
  | CallSetBright value effect duration => bg_set_bright value effect duration
  end.

Fixpoint build_all (calls : list builder_call) : M (list t) :=
  match calls with
  | [] => ret []
  | c :: rest =>
      cmd <- build c ;;
      cmds <- build_all rest ;;
      ret (cmd :: cmds)
  end.

(** Every cached value is the packing of its key. *)
Definition cache_ok (cache : list (rgb * Z)) : Prop :=
  Forall (fun entry => let '((r, g, b), v) := entry in v = pack r g b) cache.

End CommandPayload.

(** ** LampController *)

Module LampController.

Record t : Type := mk {
  ip : string;
  port : Z
}.

Definition default_port : Z := 55443.

(** [socket.socket(AF_INET, SOCK_STREAM)]. *)
Definition socket_socket : M nat :=
  k <- gets sockets_made ;;
  modify (fun w => emit (EvSocket k) (set_sockets_made (S k) w)) ;;
  ret k.

Definition socket_connect (sock : nat) (ip_ : string) (port_ : Z) : M unit :=
  outcome <- gets (fun w => connect_result (env w) sock) ;;
  match outcome with
  | None => modify (emit (EvConnect sock ip_ port_))
  | Some e => modify (emit (EvConnectFailed sock ip_ port_)) ;; raise e
  end.

(** [socket.send]: the transport takes some prefix of the data and the
    call returns how many bytes that was. *)
Definition socket_send (sock : nat) (data : string) : M Z :=
  outcome <- gets (fun w => send_result (env w) sock data) ;;
  match outcome with
  | Ok n =>
      let sent := Nat.min n (String.length data) in
      modify (emit (EvSend sock (substring 0 sent data))) ;;
      ret (Z.of_nat sent)
  | Raise e => modify (emit (EvSendFailed sock)) ;; raise e
  end.

Definition socket_close (sock : nat) : M unit :=
  modify (emit (EvClose sock)).

(** The context manager [send], applied to the body of its [with] block:
    the socket is made and connected first, and only the block runs under
    [try ... finally]. *)
Definition send {A : Type} (self : t) (block : nat -> M A) : M A :=
  tcp_socket <- socket_socket ;;
  socket_connect tcp_socket (ip self) (port self) ;;
  try_finally (block tcp_socket) (socket_close tcp_socket).

Definition send_command (self : t) (payload : CommandPayload.t) : M Z :=
  send self (fun tcp_socket =>
    data <- CommandPayload.as_bytes payload ;;
    socket_send tcp_socket data).

End LampController.

(** ** ScreenController *)

Module ScreenController.

(** The class has no instance state. *)
Inductive t : Type := instance.

Definition get_screen_resolution : M (Z * Z) :=
  gets (fun w => screen_resolution (env w) (grabs_made w)).

(** A PIL image as the module uses it: which grab it came from and the
    box it covers. *)
Record image : Type := mkImage {
  shot : nat;
  bbox : Z * Z * Z * Z
}.

Definition width (img : image) : Z :=
  let '(x0, _, x1, _) := bbox img in x1 - x0.

Definition height (img : image) : Z :=
  let '(_, y0, _, y1) := bbox img in y1 - y0.

(** [get_screnshot]: [ImageGrab.grab] on the box
    [(0, 0, width, height // 10 * 3)]. *)
Definition get_screnshot : M image :=
  resolution <- get_screen_resolution ;;
  let '(width, height) := resolution in
  let box := (0, 0, width, height / 10 * 3) in
  k <- gets grabs_made ;;
  modify (fun w => emit (EvGrab k box) (set_grabs_made (S k) w)) ;;
  ret (mkImage k box).

(** [Image.getcolors(maxcolors)].  The only caller passes the number of
    pixels of the image, which no image exceeds in distinct colours, so
    the answer is always a list. *)
Definition getcolors (img : image) (maxcolors : Z) : M (list color_entry) :=
  gets (fun w => screen_colors (env w) (shot img) (bbox img)).

(** The body of the [for] loop: the count is bound to [_] and dropped. *)
Definition accumulate (acc : rgb) (entry : color_entry) : rgb :=
  let '(avg_red, avg_green, avg_blue) := acc in
  let '(_, (r, g, b)) := entry in
  (avg_red + r, avg_green + g, avg_blue + b).

(** Python's [a // b] on integers. *)
Definition floordiv (a b : Z) : result Z :=
  if (b =? 0)%Z then Raise ZeroDivisionError else Ok (a / b).

Definition calculate_average_rgb (colors : list color_entry) : result rgb :=
  let pixels_count := Z.of_nat (List.length colors) in
  let '(avg_red, avg_green, avg_blue) := fold_left accumulate colors (0, 0, 0) in
  match floordiv avg_red pixels_count with
  | Raise e => Raise e
  | Ok red =>
      match floordiv avg_green pixels_count with
      | Raise e => Raise e
      | Ok green =>
          match floordiv avg_blue pixels_count with
          | Raise e => Raise e
          | Ok blue => Ok (red, green, blue)
          end
      end
  end.

(** Channel projections of an entry and plain (unweighted) channel sums,
    used to state what the loop computes. *)
Definition red_of (entry : color_entry) : Z := fst (fst (snd entry)).
Definition green_of (entry : color_entry) : Z := snd (fst (snd entry)).
Definition blue_of (entry : color_entry) : Z := snd (snd entry).

Definition channel_sum (f : color_entry -> Z) (colors : list color_entry) : Z :=
  fold_right Z.add 0 (map f colors).

(** The reduction the specification describes, for comparison only: the
    mean of each channel weighted by the pixel count of every entry,
    floor-divided by the total number of pixels. *)
Definition spec_total_pixels (colors : list color_entry) : Z :=
  fold_right Z.add 0 (map fst colors).

Definition spec_weighted_sum (f : color_entry -> Z) (colors : list color_entry) : Z :=
  fold_right Z.add 0 (map (fun entry => fst entry * f entry) colors).

Definition spec_weighted_average (colors : list color_entry) : rgb :=
  let total := spec_total_pixels colors in
  (spec_weighted_sum red_of colors / total,
   spec_weighted_sum green_of colors / total,
   spec_weighted_sum blue_of colors / total).

(** A colour whose three channels are 8-bit intensities. *)
Definition channel_ok (v : Z) : Prop := 0 <= v <= 255.

Definition rgb_ok (c : rgb) : Prop :=
  let '(r, g, b) := c in channel_ok r /\ channel_ok g /\ channel_ok b.

End ScreenController.

(** ** Ambilight *)

Module Ambilight.

(** The attributes set once by [__init__]; the mutable flag [_running]
    lives in the world, where the controlling thread can reach it. *)
Record t : Type := mk {
  screen_controller : ScreenController.t;
  lamp_controller : LampController.t;
  refresh_rate : Q
}.

Definition default_refresh_rate : Q := 1.
Definition default_initial_brightness : Z := 100.

Definition set_brightness (self : t) (value : Z) : M Z :=
  command <- CommandPayload.bg_set_bright value
               CommandPayload.default_effect CommandPayload.default_duration ;;
  LampController.send_command (lamp_controller self) command.

Definition __init__ (screen : ScreenController.t) (lamp : LampController.t)
    (refresh : Q) (initial_brightness : Z) : M t :=
  modify (set_running false) ;;
  let self := mk screen lamp refresh in
  set_brightness self initial_brightness ;;
  ret self.

Definition get_color (self : t) : M rgb :=
  screen_sample <- ScreenController.get_screnshot ;;
  screen_colors <- ScreenController.getcolors screen_sample
                     (ScreenController.width screen_sample
                      * ScreenController.height screen_sample) ;;
  lift (ScreenController.calculate_average_rgb screen_colors).

Definition send_set_color_command (self : t) (color : rgb) : M Z :=
  let '(r, g, b) := color in
  command <- CommandPayload.bg_set_rgb r g b
               CommandPayload.default_effect CommandPayload.default_duration ;;
  LampController.send_command (lamp_controller self) command.

(** One pass through the body of the [while] loop of [process].  The two
    readings of the clock are folded into [elapsed]. *)
Definition cycle (self : t) : M unit :=
  color <- get_color self ;;
  status <- send_set_color_command self color ;;
  modify (emit (EvLog status)) ;;
  delta <- gets (fun w => elapsed (env w) (cycles_done w)) ;;
  if Qle_bool (refresh_rate self) delta
  then ret tt
  else modify (emit (EvSleep (Qminus (refresh_rate self) delta))).

(** Between two passes: the pass is counted, and a [stop] the controlling
    thread made meanwhile shows in the flag. *)
Definition between_cycles (w : world) : world :=
  let k := cycles_done w in
  let w' := set_cycles_done (S k) w in
  if stop_requested (env w) k then set_running false w' else w'.

(** A [stop] the controlling thread made while a cycle was running shows
    in the flag whether the cycle ended well or not: after a cycle that
    raised, the pass is not counted but the flag is as [stop] left it. *)
Definition observe_stop (w : world) : world :=
  if stop_requested (env w) (cycles_done w) then set_running false w else w.

(** How a run of the worker ends: the loop test failed and [process]
    returned, an exception left [process], or the run was cut while the
    loop was still going. *)
Inductive outcome : Type :=
| Returned
| Crashed (e : exception)
| StillRunning.

(** [process], unrolled at most [fuel] passes. *)
Fixpoint process (fuel : nat) (self : t) (w : world) : outcome * world :=
  if _running w then
    match fuel with
    | O => (StillRunning, w)
    | S fuel' =>
        match cycle self w with
        | (Ok _, w') => process fuel' self (between_cycles w')
        | (Raise e, w') => (Crashed e, observe_stop w')
        end
    end
  else (Returned, w).

(** [start]: answers whether a worker thread was started. *)
Definition start (self : t) : M bool :=
  running <- gets _running ;;
  if running then ret false
  else modify (set_running true) ;; ret true.

Definition stop (self : t) : M unit :=
  modify (set_running false).

End Ambilight.

(** ** Reading traces *)

Definition is_socket (ev : event) : bool :=
  match ev with EvSocket _ => true | _ => false end.

Definition is_grab (ev : event) : bool :=
  match ev with EvGrab _ _ => true | _ => false end.

(** The number of [send_command] attempts a trace shows: each one starts
    by making a socket. *)
Definition send_attempts (tr : list event) : nat :=
  List.length (filter is_socket tr).

Definition grabs (tr : list event) : nat :=
  List.length (filter is_grab tr).

Definition is_close (ev : event) : bool :=
  match ev with EvClose _ => true | _ => false end.

Definition closes (tr : list event) : nat :=
  List.length (filter is_close tr).

(** The bytes each [send] put on the wire, in order. *)
Fixpoint written_bytes (tr : list event) : list string :=
  match tr with
  | [] => []
  | EvSend _ data :: rest => data :: written_bytes rest
  | _ :: rest => written_bytes rest
  end.

(** ** Sample environments *)

(** A lamp that is reachable and takes whatever it is sent, in front of a
    1920x1080 screen showing one red and one black colour. *)
Definition sample_colors : list color_entry :=
  [(3, (255, 0, 0)); (1, (0, 0, 0))].

Definition env_healthy : environment :=
  mkEnvironment (fun _ => None)
                (fun _ data => Ok (String.length data))
                (fun _ => (1920, 1080))
                (fun _ _ => sample_colors)
                (fun _ => 0%Q)
                (fun _ => false).

(** The same as [env_healthy], but the transport takes five bytes per
    [send]. *)
Definition env_short_write : environment :=
  mkEnvironment (fun _ => None)
                (fun _ _ => Ok 5%nat)
                (fun _ => (1920, 1080))
                (fun _ _ => sample_colors)
                (fun _ => 0%Q)
                (fun _ => false).

(** A lamp that refuses every connection. *)
Definition env_refused : environment :=
  mkEnvironment (fun _ => Some ConnectionError)
                (fun _ data => Ok (String.length data))
                (fun _ => (1920, 1080))
                (fun _ _ => sample_colors)
                (fun _ => 0%Q)
                (fun _ => false).

(** A lamp that refuses every connection, while the controlling thread
    calls [stop] during the first cycle. *)
Definition env_refused_stopped : environment :=
  mkEnvironment (fun _ => Some ConnectionError)
                (fun _ data => Ok (String.length data))
                (fun _ => (1920, 1080))
                (fun _ _ => sample_colors)
                (fun _ => 0%Q)
                (fun k => Nat.eqb k 0).

Definition sample_lamp : LampController.t :=
  LampController.mk "192.168.1.50" LampController.default_port.

Definition sample_ambilight : Ambilight.t :=
  Ambilight.mk ScreenController.instance sample_lamp Ambilight.default_refresh_rate.

(** The world in which the worker starts: [main] has built the
    [Ambilight] object and called [start] once. *)
Definition started_world (e : environment) : world :=
  snd (Ambilight.start sample_ambilight
         (snd (Ambilight.__init__ ScreenController.instance sample_lamp
                 Ambilight.default_refresh_rate
                 Ambilight.default_initial_brightness (initial_world e)))).

(** A lamp that refuses the second connection only: the brightness
    command of the constructor goes through, the first colour command does
    not, later ones would. *)
Definition env_second_refused : environment :=
  mkEnvironment (fun k => match k with 1%nat => Some ConnectionError | _ => None end)
                (fun _ data => Ok (String.length data))
                (fun _ => (1920, 1080))
                (fun _ _ => sample_colors)
                (fun _ => 0%Q)
                (fun _ => false).

(** The first command of a process as the constructor builds it with the
    default brightness, and the world right after it was built. *)
Definition sample_payload : CommandPayload.t :=
  CommandPayload.mk 0 "bg_set_bright"
    [CommandPayload.PInt 100; CommandPayload.PStr "smooth"; CommandPayload.PInt 500].

Definition world_after_first_command (e : environment) : world :=
  set_next_id 0 (initial_world e).

(** Wire text is written below with apostrophes where the wire has double
    quotes; [dq] puts the double quotes back. *)
Fixpoint dq (s : string) : string :=
  match s with
  | EmptyString => EmptyString
  | String c rest =>
      String (if Ascii.eqb c "'" then "034"%char else c) (dq rest)
  end.

(** ** Tools for stating the properties *)

(** A computation keeps a property of the world. *)
Definition preserves {A : Type} (P : world -> Prop) (c : M A) : Prop :=
  forall w, P w -> P (snd (c w)).

(** The bytes [as_bytes] produces for a command when the class counter
    reads [next]. *)
Definition encoded (payload : CommandPayload.t) (next : Z) : string :=
  json_dumps
    (JObject [("id", JInt (CommandPayload.id payload));
              ("method", JStr (CommandPayload.method payload));
              ("params", JList (map CommandPayload.param_json
                                    (CommandPayload.params payload)));
              ("_next_id", JInt next)]) ++ CRLF.

(** The world after one [send_command] that left the events [evs]. *)
Definition after_send_command (w : world) (evs : list event) : world :=
  mkWorld (env w) (_next_id w) (convert_rgb_cache w) (_running w)
          (S (sockets_made w)) (grabs_made w) (cycles_done w) (trace w ++ evs).

(** ** Runs of calls, for the properties of the memoised packing *)

(** A run of calls of [convert_rgb], with the values they return. *)
Fixpoint convert_all (calls : list rgb) : M (list Z) :=
  match calls with
  | [] => ret []
  | (r, g, b) :: rest =>
      v <- CommandPayload.convert_rgb r g b ;;
      vs <- convert_all rest ;;
      ret (v :: vs)
  end.

(** ** What a cycle is about to do, for the properties of the loop *)

(** The box and the colours of the next grab of a world. *)
Definition next_box (w : world) : Z * Z * Z * Z :=
  (0, 0, fst (screen_resolution (env w) (grabs_made w)),
   snd (screen_resolution (env w) (grabs_made w)) / 10 * 3).

Definition next_colors (w : world) : list color_entry :=
  screen_colors (env w) (grabs_made w) (next_box w).

(** The colour command a cycle builds when the packing it gets is [v]. *)
Definition color_command (w : world) (v : Z) : CommandPayload.t :=
  CommandPayload.mk (_next_id w + 1) "bg_set_rgb"
    [CommandPayload.PInt v; CommandPayload.PStr CommandPayload.default_effect;
     CommandPayload.PInt CommandPayload.default_duration].

(** The sleep that ends a cycle, if any. *)
Definition cycle_sleep (self : Ambilight.t) (w : world) : list event :=
  let delta := elapsed (env w) (cycles_done w) in
  if Qle_bool (Ambilight.refresh_rate self) delta then []
  else [EvSleep (Qminus (Ambilight.refresh_rate self) delta)].

(** The outcome of the next cycle of a world and the events it leaves,
    read off the answers of the outside. *)
Definition cycle_plan (self : Ambilight.t) (w : world) (v : Z)
  : result unit * list event :=
  let grab := EvGrab (grabs_made w) (next_box w) in
  let k := sockets_made w in
  let lamp := Ambilight.lamp_controller self in
  let data := encoded (color_command w v) (_next_id w + 1) in
  match ScreenController.calculate_average_rgb (next_colors w) with
  | Raise e => (Raise e, [grab])
  | Ok _ =>
      match connect_result (env w) k with
      | Some e =>
          (Raise e,
           [grab; EvSocket k;
            EvConnectFailed k (LampController.ip lamp) (LampController.port lamp)])
      | None =>
          match send_result (env w) k data with
          | Raise e =>
              (Raise e,
               [grab; EvSocket k;
                EvConnect k (LampController.ip lamp) (LampController.port lamp);
                EvSendFailed k; EvClose k])
          | Ok n =>
              let sent := Nat.min n (String.length data) in
              (Ok tt,
               ([grab; EvSocket k;
                 EvConnect k (LampController.ip lamp) (LampController.port lamp);
                 EvSend k (substring 0 sent data); EvClose k;
                 EvLog (Z.of_nat sent)] ++ cycle_sleep self w)%list)
          end
      end
  end.

(** What a cycle leaves alone and what it advances. *)
Definition cycle_frame (w w' : world) (evs : list event) : Prop :=
  env w' = env w /\
  _running w' = _running w /\
  cycles_done w' = cycles_done w /\
  grabs_made w' = S (grabs_made w) /\
  trace w' = (trace w ++ evs)%list.

Definition is_sleep_positive (ev : event) : Prop :=
  match ev with
  | EvSleep d => Qlt 0 d
  | _ => True
  end.

(** Outsides that never get in the way of the worker. *)
Definition lamp_reachable (e : environment) : Prop :=
  forall k, connect_result e k = None.

Definition lamp_takes_all (e : environment) : Prop :=
  forall k data, exists n,
    send_result e k data = Ok n /\ (String.length data <= n)%nat.

Definition screen_shows (e : environment) : Prop :=
  forall k box, screen_colors e k box <> [].

(** The colours of the [k]-th grab and the packing of their mean. *)
Definition grab_colors (e : environment) (k : nat) : list color_entry :=
  screen_colors e k
    (0, 0, fst (screen_resolution e k), snd (screen_resolution e k) / 10 * 3).

Definition mean_packed (e : environment) (k : nat) : Z :=
  match ScreenController.calculate_average_rgb (grab_colors e k) with
  | Ok (r, g, b) => CommandPayload.pack r g b
  | Raise _ => 0
  end.

(** The bytes of the colour command with identifier [id_] for the [k]-th
    grab. *)
Definition color_wire (e : environment) (id_ : Z) (k : nat) : string :=
  encoded
    (CommandPayload.mk id_ "bg_set_rgb"
       [CommandPayload.PInt (mean_packed e k);
        CommandPayload.PStr CommandPayload.default_effect;
        CommandPayload.PInt CommandPayload.default_duration])
    id_.

(** A world in which the worker has just been started, without the
    constructor's command. *)
Definition running_world (e : environment) : world :=
  set_running true (initial_world e).

(** The same as [env_healthy], but [stop] is called during the second
    cycle. *)
Definition env_stop_second : environment :=
  mkEnvironment (fun _ => None)
                (fun _ data => Ok (String.length data))
                (fun _ => (1920, 1080))
                (fun _ _ => sample_colors)
                (fun _ => 0%Q)
                (fun k => Nat.eqb k 1).

(** ** main *)

Module Main.

(** Where a [KeyboardInterrupt] reaches the main thread in a pass of its
    loop: at the loop jump, which is not under the [try]; under the [try]
    before [start] has done anything; inside [start], after it raised the
    flag and before it started the thread; or under the [try] after
    [start] has returned. *)
Inductive arrival : Type :=
| OutsideTry
| BeforeStart
| InsideStart
| AfterStart.

(** How the main thread ends: [exit(code)], an exception nobody catches,
    a [KeyboardInterrupt] nobody catches, or still going round its loop
    when the run is cut. *)
Inductive ending : Type :=
| Exit (code : Z)
| Uncaught (e : exception)
| Interrupted
| Spinning.

(** What the main thread did besides what the trace shows: how it ended,
    the lines it logged at level INFO and the worker threads it started. *)
Record report : Type := mkReport {
  end_ : ending;
  info : list string;
  workers : nat
}.

Definition start_line (ip : string) : string :=
  "Start Yeelight Ambilight on " ++ ip ++ " lamp.".

(** The [except KeyboardInterrupt] block. *)
Definition goodbye (self : Ambilight.t) (info_ : list string) (workers_ : nat)
    (w : world) : report * world :=
  match Ambilight.stop self w with
  | (Ok _, w') => (mkReport (Exit 1) (info_ ++ ["GoodBye!"])%list workers_, w')
  | (Raise e, w') => (mkReport (Uncaught e) info_ workers_, w')
  end.

(** The [while True] loop of [main], at most [fuel] passes.  [interrupt p]
    tells whether a [KeyboardInterrupt] reaches the main thread in pass
    [p], and where. *)
Fixpoint serve (fuel pass : nat) (interrupt : nat -> option arrival)
    (self : Ambilight.t) (info_ : list string) (workers_ : nat) (w : world)
  : report * world :=
  match fuel with
  | O => (mkReport Spinning info_ workers_, w)
  | S fuel' =>
      match interrupt pass with
      | Some OutsideTry => (mkReport Interrupted info_ workers_, w)
      | Some BeforeStart => goodbye self info_ workers_ w
      | Some InsideStart =>
          goodbye self info_ workers_
            (if _running w then w else set_running true w)
      | Some AfterStart =>
          match Ambilight.start self w with
          | (Ok started, w') =>
              goodbye self info_ (if started then S workers_ else workers_) w'
          | (Raise e, w') => (mkReport (Uncaught e) info_ workers_, w')
          end
      | None =>
          match Ambilight.start self w with
          | (Ok started, w') =>
              serve fuel' (S pass) interrupt self info_
                (if started then S workers_ else workers_) w'
          | (Raise e, w') => (mkReport (Uncaught e) info_ workers_, w')
          end
      end
  end.

(** [main] from the parsed arguments on; the set-up of the logger is left
    out.  The worker threads run beside it and are not part of this
    function. *)
Definition main (ip : string) (interrupt : nat -> option arrival) (fuel : nat)
    (w : world) : report * world :=
  let screen_controller := ScreenController.instance in
  let lamp_controller := LampController.mk ip LampController.default_port in
  match Ambilight.__init__ screen_controller lamp_controller
          Ambilight.default_refresh_rate Ambilight.default_initial_brightness w with
  | (Raise e, w') => (mkReport (Uncaught e) [] 0, w')
  | (Ok ambilight_controller, w') =>
      serve fuel 0 interrupt ambilight_controller [start_line ip] 0 w'
  end.

End Main.

(** A [KeyboardInterrupt] that reaches the main thread in pass [j], at
    the loop jump. *)
Definition interrupt_outside_at (j p : nat) : option Main.arrival :=
  if Nat.eqb p j then Some Main.OutsideTry else None.

(** The brightness command the constructor builds in a world, with the
    defaults of [main]. *)
Definition brightness_command (w : world) (value : Z) : CommandPayload.t :=
  CommandPayload.mk (_next_id w + 1) "bg_set_bright"
    [CommandPayload.PInt value; CommandPayload.PStr "smooth"; CommandPayload.PInt 500].

(** ** Reading the wire text back, for the properties of the encoding *)

Definition printable (c : ascii) : bool :=
  let n := N_of_ascii c in ((32 <=? n) && (n <=? 126))%N.

(** The characters of a decimal integer: the minus sign and the digits. *)
Definition number_char (c : ascii) : bool :=
  let n := N_of_ascii c in ((n =? 45) || ((48 <=? n) && (n <=? 57)))%N.

Fixpoint all_chars (p : ascii -> bool) (s : string) : bool :=
  match s with
  | EmptyString => true
  | String c rest => p c && all_chars p rest
  end.

Definition starts_outside (p : ascii -> bool) (s : string) : bool :=
  match s with
  | EmptyString => true
  | String c _ => negb (p c)
  end.

Definition unhex (c : ascii) : option N :=
  let n := N_of_ascii c in
  if ((48 <=? n) && (n <=? 57))%N then Some (n - 48)%N
  else if ((97 <=? n) && (n <=? 102))%N then Some (n - 87)%N
  else None.

(** The first character an escaped text stands for, with what follows
    it; nothing at a bare quote, where the text ends. *)
Definition unescape_head (s : string) : option (ascii * string) :=
  match s with
  | EmptyString => None
  | String c rest =>
      if (N_of_ascii c =? 34)%N then None
      else if (N_of_ascii c =? 92)%N then
        match rest with
        | EmptyString => None
        | String e rest' =>
            match N_of_ascii e with
            | 34%N => Some ("034"%char, rest')
            | 92%N => Some ("092"%char, rest')
            | 98%N => Some ("008"%char, rest')
            | 102%N => Some ("012"%char, rest')
            | 110%N => Some ("010"%char, rest')
            | 114%N => Some ("013"%char, rest')
            | 116%N => Some ("009"%char, rest')
            | 117%N =>
                match rest' with
                | String _ (String _ (String h (String l rest''))) =>
                    match unhex h, unhex l with
                    | Some a, Some b => Some (ascii_of_N (16 * a + b), rest'')
                    | _, _ => None
                    end
                | _ => None
                end
            | _ => None
            end
        end
      else Some (c, rest)
  end.

(** The items of a JSON list with their separators, as [json.dumps]
    writes them between the brackets. *)
Fixpoint join_items (l : list json) : string :=
  match l with
  | [] => EmptyString
  | x :: rest =>
      match rest with
      | [] => json_dumps x
      | _ :: _ => json_dumps x ++ ", " ++ join_items rest
      end
  end.

(** * Properties *)

(** ** Colour reduction *)

Section AverageRgb.

Import ScreenController.

Lemma fold_accumulate_sums (colors : list color_entry) (a b c : Z) :
  fold_left accumulate colors (a, b, c) =
  (a + channel_sum red_of colors,
   b + channel_sum green_of colors,
   c + channel_sum blue_of colors).
Proof.
  revert a b c.
  induction colors as [| [count [[r g] bl]] rest IH]; intros a b c.
  - cbn. now rewrite !Z.add_0_r.
  - cbn [fold_left accumulate]. rewrite IH.
    unfold channel_sum, red_of, green_of, blue_of.
    cbn [map fold_right fst snd].
    f_equal; [f_equal |]; lia.
Qed.

Lemma floordiv_nonzero (a b : Z) : b <> 0 -> floordiv a b = Ok (a / b).
Proof.
  intros Hb. unfold floordiv.
  destruct (Z.eqb_spec b 0); [contradiction | reflexivity].
Qed.

Lemma length_nonzero (colors : list color_entry) :
  colors <> [] -> Z.of_nat (List.length colors) <> 0.
Proof.
  destruct colors; [congruence | cbn [List.length]; lia].
Qed.

(** On a list that is not empty the call returns the three plain channel
    sums, each floor-divided by the number of entries. *)
Lemma calculate_average_rgb_nonempty (colors : list color_entry) :
  colors <> [] ->
  calculate_average_rgb colors =
  Ok (channel_sum red_of colors / Z.of_nat (List.length colors),
      channel_sum green_of colors / Z.of_nat (List.length colors),
      channel_sum blue_of colors / Z.of_nat (List.length colors)).
Proof.
  intros Hne. unfold calculate_average_rgb.
  rewrite fold_accumulate_sums.
  rewrite !floordiv_nonzero by now apply length_nonzero.
  reflexivity.
Qed.

Lemma calculate_average_rgb_empty :
  calculate_average_rgb [] = Raise ZeroDivisionError.
Proof. reflexivity. Qed.

(** The sums only look at the colour of an entry. *)
Lemma channel_sum_colors_only (f : rgb -> Z) (l1 l2 : list color_entry) :
  map snd l1 = map snd l2 ->
  channel_sum (fun entry => f (snd entry)) l1 =
  channel_sum (fun entry => f (snd entry)) l2.
Proof.
  intros Heq. unfold channel_sum.
  assert (Hmap : forall l : list color_entry,
             map (fun entry => f (snd entry)) l = map f (map snd l))
    by (intro l; symmetry; apply map_map).
  now rewrite !Hmap, Heq.
Qed.

Lemma channel_sum_bounds (f : color_entry -> Z) (colors : list color_entry) :
  Forall (fun entry => channel_ok (f entry)) colors ->
  0 <= channel_sum f colors <= 255 * Z.of_nat (List.length colors).
Proof.
  unfold channel_sum, channel_ok.
  induction 1 as [| entry rest Hentry _ IH]; cbn [map fold_right List.length].
  - lia.
  - cbn beta in Hentry. lia.
Qed.

Lemma mean_channel_ok (total n : Z) :
  0 < n -> 0 <= total <= 255 * n -> channel_ok (total / n).
Proof.
  intros Hn [Hlo Hhi]. split.
  - apply Z.div_pos; lia.
  - apply Z.div_le_upper_bound; lia.
Qed.

Lemma calculate_average_rgb_range (colors : list color_entry) :
  colors <> [] ->
  Forall (fun entry => rgb_ok (snd entry)) colors ->
  exists c, calculate_average_rgb colors = Ok c /\ rgb_ok c.
Proof.
  intros Hne Hall.
  rewrite (calculate_average_rgb_nonempty colors Hne).
  eexists; split; [reflexivity |].
  assert (Hn : 0 < Z.of_nat (List.length colors))
    by (pose proof (length_nonzero colors Hne); lia).
  unfold rgb_ok.
  repeat split; apply mean_channel_ok; try exact Hn;
    apply channel_sum_bounds;
    (eapply Forall_impl; [| exact Hall]);
    intros [count [[r g] b]]; unfold rgb_ok, red_of, green_of, blue_of; cbn; tauto.
Qed.

(** What the function computes.  For every list of [(count, colour)]
    entries that is not empty, [calculate_average_rgb] returns, for each
    channel, the plain sum of that channel over the entries floor-divided
    by the number of entries: the pixel counts play no part. *)
Theorem calculate_average_rgb_unweighted_mean (colors : list color_entry) :
  colors <> [] ->
  calculate_average_rgb colors =
  Ok (channel_sum red_of colors / Z.of_nat (List.length colors),
      channel_sum green_of colors / Z.of_nat (List.length colors),
      channel_sum blue_of colors / Z.of_nat (List.length colors)).
Proof. exact (calculate_average_rgb_nonempty colors). Qed.

(** On three red pixels and one black pixel the result is (127, 0, 0). *)
Lemma calculate_average_rgb_unweighted_mean_witness :
  sample_colors <> [] /\
  calculate_average_rgb sample_colors = Ok (255 / 2, 0 / 2, 0 / 2) /\
  calculate_average_rgb sample_colors = Ok (127, 0, 0).
Proof.
  assert (Hne : sample_colors <> []) by discriminate.
  split; [exact Hne |].
  split; [exact (calculate_average_rgb_unweighted_mean sample_colors Hne) |].
  reflexivity.
Defined.

(** C1, at the example of the specification.  For three red pixels and
    one black pixel, [{(255,0,0): 3, (0,0,0): 1}], the mean over the pixels
    is (191, 0, 0); the call returns (127, 0, 0), the sum over the two
    distinct colours divided by 2, the number the source names
    [pixels_count]. *)
Lemma calculate_average_rgb_not_weighted :
  spec_weighted_average sample_colors = (191, 0, 0) /\
  calculate_average_rgb sample_colors = Ok (127, 0, 0) /\
  calculate_average_rgb sample_colors <> Ok (191, 0, 0) /\
  calculate_average_rgb sample_colors <> Ok (spec_weighted_average sample_colors).
Proof.
  repeat split; try reflexivity; cbv; discriminate.
Qed.

(** C4, as stated, fails: on the empty list the call does divide by zero,
    and what it raises is [ZeroDivisionError], not [SamplingError]. *)
Lemma calculate_average_rgb_empty_not_sampling_error :
  calculate_average_rgb [] = Raise ZeroDivisionError /\
  calculate_average_rgb [] <> Raise SamplingError.
Proof. split; [reflexivity | cbv; discriminate]. Qed.

(** C4, as amended.  [calculate_average_rgb] raises [ZeroDivisionError]
    exactly on the empty list, returns a colour on every other list, and
    raises [SamplingError] on no list at all. *)
Theorem calculate_average_rgb_zero_division (colors : list color_entry) :
  (calculate_average_rgb colors = Raise ZeroDivisionError <-> colors = []) /\
  (colors = [] \/ exists c, calculate_average_rgb colors = Ok c) /\
  calculate_average_rgb colors <> Raise SamplingError.
Proof.
  destruct colors as [| entry rest].
  - repeat split; auto; cbv; discriminate.
  - assert (Hne : entry :: rest <> []) by discriminate.
    rewrite (calculate_average_rgb_nonempty _ Hne).
    repeat split; try discriminate.
    right. eexists. reflexivity.
Qed.

(** C9.  The result of [calculate_average_rgb] depends on the colour
    triples of its input only: two lists with the same colours in the same
    order give the same result, whatever their pixel counts are. *)
Theorem calculate_average_rgb_ignores_counts (l1 l2 : list color_entry) :
  map snd l1 = map snd l2 ->
  calculate_average_rgb l1 = calculate_average_rgb l2.
Proof.
  intros Heq.
  assert (Hlen : List.length l1 = List.length l2).
  { pose proof (f_equal (@List.length rgb) Heq) as Hmap.
    now rewrite !length_map in Hmap. }
  unfold calculate_average_rgb.
  rewrite !fold_accumulate_sums, Hlen.
  assert (Hr : channel_sum red_of l1 = channel_sum red_of l2)
    by exact (channel_sum_colors_only (fun c => fst (fst c)) l1 l2 Heq).
  assert (Hg : channel_sum green_of l1 = channel_sum green_of l2)
    by exact (channel_sum_colors_only (fun c => snd (fst c)) l1 l2 Heq).
  assert (Hb : channel_sum blue_of l1 = channel_sum blue_of l2)
    by exact (channel_sum_colors_only (fun c => snd c) l1 l2 Heq).
  now rewrite Hr, Hg, Hb.
Qed.

Lemma calculate_average_rgb_ignores_counts_witness :
  map snd [(3, (255, 0, 0)); (1, (0, 0, 0))] =
  map snd [(1, (255, 0, 0)); (1000, (0, 0, 0))] /\
  calculate_average_rgb [(3, (255, 0, 0)); (1, (0, 0, 0))] =
  calculate_average_rgb [(1, (255, 0, 0)); (1000, (0, 0, 0))].
Proof.
  split; [reflexivity |].
  apply (calculate_average_rgb_ignores_counts
           [(3, (255, 0, 0)); (1, (0, 0, 0))]
           [(1, (255, 0, 0)); (1000, (0, 0, 0))]).
  reflexivity.
Defined.

(** C10.  On a list that is not empty and whose colours all have their
    channels in [[0, 255]], [calculate_average_rgb] returns a colour whose
    channels are in [[0, 255]] too. *)
Theorem calculate_average_rgb_channels_in_range (colors : list color_entry) :
  colors <> [] ->
  Forall (fun entry => rgb_ok (snd entry)) colors ->
  exists c, calculate_average_rgb colors = Ok c /\ rgb_ok c.
Proof. exact (calculate_average_rgb_range colors). Qed.

Lemma calculate_average_rgb_channels_in_range_witness :
  sample_colors <> [] /\
  Forall (fun entry => rgb_ok (snd entry)) sample_colors /\
  exists c, calculate_average_rgb sample_colors = Ok c /\ rgb_ok c.
Proof.
  assert (Hne : sample_colors <> []) by discriminate.
  assert (Hall : Forall (fun entry => rgb_ok (snd entry)) sample_colors).
  { unfold sample_colors, rgb_ok, channel_ok.
    repeat constructor; cbn; lia. }
  split; [exact Hne |].
  split; [exact Hall |].
  exact (calculate_average_rgb_channels_in_range sample_colors Hne Hall).
Defined.

End AverageRgb.

(** ** Keeping a property of the world across a computation *)

Section Preserves.

Variable P : world -> Prop.

Lemma preserves_ret {A : Type} (a : A) : preserves P (ret a).
Proof. intros w Hw. exact Hw. Qed.

Lemma preserves_raise {A : Type} (e : exception) : preserves P (@raise A e).
Proof. intros w Hw. exact Hw. Qed.

Lemma preserves_lift {A : Type} (r : result A) : preserves P (lift r).
Proof. intros w Hw. exact Hw. Qed.

Lemma preserves_gets {A : Type} (f : world -> A) : preserves P (gets f).
Proof. intros w Hw. exact Hw. Qed.

Lemma preserves_modify (f : world -> world) :
  (forall w, P w -> P (f w)) -> preserves P (modify f).
Proof. intros Hf w Hw. apply Hf, Hw. Qed.

Lemma preserves_bind {A B : Type} (c : M A) (k : A -> M B) :
  preserves P c -> (forall a, preserves P (k a)) -> preserves P (bind c k).
Proof.
  intros Hc Hk w Hw. unfold bind.
  specialize (Hc w Hw).
  destruct (c w) as [[a | e] w']; cbn [snd] in *.
  - apply Hk, Hc.
  - exact Hc.
Qed.

Lemma preserves_try_finally {A : Type} (body : M A) (cleanup : M unit) :
  preserves P body -> preserves P cleanup -> preserves P (try_finally body cleanup).
Proof.
  intros Hb Hc w Hw. unfold try_finally.
  specialize (Hb w Hw).
  destruct (body w) as [r w']; cbn [snd] in Hb.
  specialize (Hc w' Hb).
  destruct (cleanup w') as [[u | e] w'']; exact Hc.
Qed.

End Preserves.

(** Opens the binds of a computation and leaves the [modify] steps. *)
Ltac preserves_steps :=
  repeat first
    [ apply preserves_ret | apply preserves_raise | apply preserves_lift
    | apply preserves_gets | apply preserves_try_finally
    | apply preserves_bind; [| intro]
    | apply preserves_modify; intros ? ? ].

(** ** Command records *)

Section Commands.

Import CommandPayload.

Lemma key_eqb_eq (k1 k2 : rgb) : key_eqb k1 k2 = true -> k1 = k2.
Proof.
  destruct k1 as [[r1 g1] b1], k2 as [[r2 g2] b2]. unfold key_eqb.
  rewrite !andb_true_iff, !Z.eqb_eq. intros [[-> ->] ->]. reflexivity.
Qed.

Lemma cache_lookup_ok (cache : list (rgb * Z)) (r g b v : Z) :
  cache_ok cache -> cache_lookup (r, g, b) cache = Some v -> v = pack r g b.
Proof.
  unfold cache_ok.
  induction 1 as [| [[[r' g'] b'] v'] rest Hentry _ IH]; cbn [cache_lookup].
  - discriminate.
  - destruct (key_eqb (r, g, b) (r', g', b')) eqn:Hkey.
    + apply key_eqb_eq in Hkey. injection Hkey as -> -> ->.
      intros [= <-]. exact Hentry.
    + exact IH.
Qed.

Lemma cache_remove_ok (key : rgb) (cache : list (rgb * Z)) :
  cache_ok cache -> cache_ok (cache_remove key cache).
Proof.
  unfold cache_ok.
  induction 1 as [| [k v] rest Hentry _ IH]; cbn [cache_remove].
  - constructor.
  - destruct (key_eqb key k); [exact IH | constructor; assumption].
Qed.

Lemma firstn_cache_ok (n : nat) (cache : list (rgb * Z)) :
  cache_ok cache -> cache_ok (firstn n cache).
Proof.
  unfold cache_ok. intros Hok. revert n.
  induction Hok as [| entry rest Hentry _ IH]; intros [| n]; cbn [firstn];
    constructor; auto.
Qed.

(** Memoisation is invisible: with a sound cache, a hit and a miss both
    return the packing, and the cache stays sound.  Nothing but the cache
    changes. *)
Lemma convert_rgb_spec (r g b : Z) (w : world) :
  cache_ok (convert_rgb_cache w) ->
  exists cache',
    convert_rgb r g b w = (Ok (pack r g b), set_cache cache' w) /\
    cache_ok cache'.
Proof.
  intros Hok. unfold convert_rgb, bind, gets, modify, ret.
  destruct (cache_lookup (r, g, b) (convert_rgb_cache w)) as [v |] eqn:Hlook.
  - apply (cache_lookup_ok _ _ _ _ _ Hok) in Hlook. subst v.
    eexists. split; [reflexivity |].
    constructor; [reflexivity | now apply cache_remove_ok].
  - eexists. split; [reflexivity |].
    apply firstn_cache_ok. constructor; [reflexivity | exact Hok].
Qed.

(** Whatever the cache holds, [convert_rgb] returns and touches the cache
    only. *)
Lemma convert_rgb_total (r g b : Z) (w : world) :
  exists v cache', convert_rgb r g b w = (Ok v, set_cache cache' w).
Proof.
  unfold convert_rgb, bind, gets, modify, ret.
  destruct (cache_lookup (r, g, b) (convert_rgb_cache w)); eauto.
Qed.

Lemma cls_spec (method_ : string) (params_ : list param) (w : world) :
  cls method_ params_ w =
  (Ok (mk (_next_id w + 1) method_ params_), set_next_id (_next_id w + 1) w).
Proof. reflexivity. Qed.

Lemma cls_spec_bright (value : Z) (effect : string) (duration : Z) (w : world) :
  bg_set_bright value effect duration w =
  (Ok (mk (_next_id w + 1) "bg_set_bright" [PInt value; PStr effect; PInt duration]),
   set_next_id (_next_id w + 1) w).
Proof. reflexivity. Qed.

(** A builder call always returns a command; the command carries the
    counter value after one increment. *)
Lemma build_spec (c : builder_call) (w : world) :
  exists cmd w',
    build c w = (Ok cmd, w') /\
    id cmd = _next_id w + 1 /\
    _next_id w' = _next_id w + 1.
Proof.
  destruct c as [r g b effect duration | value effect duration]; cbn [build].
  - unfold bg_set_rgb, bind.
    destruct (convert_rgb_total r g b w) as (v & cache' & ->).
    rewrite cls_spec. eexists _, _. split; [reflexivity |]. split; reflexivity.
  - unfold bg_set_bright. rewrite cls_spec.
    eexists _, _. split; [reflexivity |]. split; reflexivity.
Qed.

Lemma build_all_ids (calls : list builder_call) (w : world) :
  exists cmds w',
    build_all calls w = (Ok cmds, w') /\
    map id cmds =
    map (fun k => _next_id w + 1 + Z.of_nat k) (seq 0 (List.length calls)).
Proof.
  revert w. induction calls as [| c rest IH]; intros w.
  - exists [], w. split; reflexivity.
  - destruct (build_spec c w) as (cmd & w1 & Hbuild & Hid & Hnext).
    destruct (IH w1) as (cmds & w2 & Hrest & Hids).
    exists (cmd :: cmds), w2. split.
    + cbn [build_all]. unfold bind. rewrite Hbuild, Hrest. reflexivity.
    + cbn [map List.length seq]. rewrite Hid, Hids, <- seq_shift, map_map.
      f_equal; [lia |].
      apply map_ext. intros k. rewrite Hnext. lia.
Qed.

(** C5, as stated, fails: [bg_set_rgb] does not constrain its arguments.
    For [(300, 0, 0)] the parameter is [300 * 65536], which is neither the
    packing of the clamped triple [(255, 0, 0)] nor the packing of any
    triple of 8-bit channels. *)
Lemma bg_set_rgb_does_not_constrain :
  fst (bg_set_rgb 300 0 0 default_effect default_duration (initial_world env_healthy)) =
  Ok (mk 0 "bg_set_rgb" [PInt 19660800; PStr "smooth"; PInt 500]) /\
  19660800 <> pack 255 0 0 /\
  ~ (exists r g b,
        ScreenController.rgb_ok (r, g, b) /\ pack r g b = 19660800).
Proof.
  split; [reflexivity |].
  split; [discriminate |].
  intros (r & g & b & (Hr & Hg & Hb) & Hpack).
  unfold ScreenController.channel_ok, pack in *. lia.
Qed.

(** C5, as amended.  For all integers [r], [g], [b], in a world whose
    memoisation cache is sound, [bg_set_rgb] returns a command whose method
    is ["bg_set_rgb"] and whose parameters are
    [[r*65536 + g*256 + b, effect, duration]], with no constraint put on
    [r], [g] and [b]; its identifier is the class counter after one
    increment, and the cache stays sound. *)
Theorem bg_set_rgb_packs_unconstrained (r g b : Z) (effect : string)
    (duration : Z) (w : world) :
  cache_ok (convert_rgb_cache w) ->
  exists w',
    bg_set_rgb r g b effect duration w =
    (Ok (mk (_next_id w + 1) "bg_set_rgb"
            [PInt (r * 65536 + g * 256 + b); PStr effect; PInt duration]), w') /\
    cache_ok (convert_rgb_cache w').
Proof.
  intros Hok. unfold bg_set_rgb, bind.
  destruct (convert_rgb_spec r g b w Hok) as (cache' & -> & Hok').
  rewrite cls_spec. eexists. split; [reflexivity | exact Hok'].
Qed.

Lemma bg_set_rgb_packs_unconstrained_witness :
  cache_ok (convert_rgb_cache (initial_world env_healthy)) /\
  exists w',
    bg_set_rgb 12 200 7 "smooth" 500 (initial_world env_healthy) =
    (Ok (mk (_next_id (initial_world env_healthy) + 1) "bg_set_rgb"
            [PInt (12 * 65536 + 200 * 256 + 7); PStr "smooth"; PInt 500]), w') /\
    cache_ok (convert_rgb_cache w').
Proof.
  assert (Hok : cache_ok (convert_rgb_cache (initial_world env_healthy)))
    by constructor.
  split; [exact Hok |].
  exact (bg_set_rgb_packs_unconstrained 12 200 7 "smooth" 500
           (initial_world env_healthy) Hok).
Defined.

(** C6.  Whatever the outside is, a run of [N] builder calls from the
    start of the process returns [N] commands whose identifiers are
    [0, 1, ..., N-1] in construction order: they start at 0 and go up by
    one, without gap or repeat. *)
Theorem build_all_ids_consecutive (e : environment) (calls : list builder_call) :
  exists cmds w',
    build_all calls (initial_world e) = (Ok cmds, w') /\
    map id cmds = map Z.of_nat (seq 0 (List.length calls)).
Proof.
  destruct (build_all_ids calls (initial_world e)) as (cmds & w' & Hrun & Hids).
  exists cmds, w'. split; [exact Hrun |].
  rewrite Hids. apply map_ext. intros k. cbn [initial_world _next_id]. lia.
Qed.

Lemma append_assoc (s1 s2 s3 : string) : (s1 ++ s2) ++ s3 = s1 ++ (s2 ++ s3).
Proof.
  induction s1 as [| c s1 IH]; cbn [append]; [reflexivity | now rewrite IH].
Qed.

(** What [json.dumps] writes for an object of four members. *)
Lemma json_dumps_object4 (k1 k2 k3 k4 : string) (v1 v2 v3 v4 : json) :
  json_dumps (JObject [(k1, v1); (k2, v2); (k3, v3); (k4, v4)]) =
  "{" ++ dumps_str k1 ++ ": " ++ json_dumps v1 ++ ", " ++
         dumps_str k2 ++ ": " ++ json_dumps v2 ++ ", " ++
         dumps_str k3 ++ ": " ++ json_dumps v3 ++ ", " ++
         dumps_str k4 ++ ": " ++ json_dumps v4 ++ "}".
Proof.
  change (json_dumps (JObject [(k1, v1); (k2, v2); (k3, v3); (k4, v4)]))
    with ("{" ++ (dumps_str k1 ++ ": " ++ json_dumps v1 ++ ", " ++
                  dumps_str k2 ++ ": " ++ json_dumps v2 ++ ", " ++
                  dumps_str k3 ++ ": " ++ json_dumps v3 ++ ", " ++
                  dumps_str k4 ++ ": " ++ json_dumps v4) ++ "}").
  now rewrite !append_assoc.
Qed.

(** C3.  For every command, [asdict] lists the four dataclass fields, so
    the wire object carries a member [_next_id], the class counter when the
    command is encoded, after [id], [method] and [params]; the text ends
    with CR LF.  The first command of a process, [bg_set_bright(100)], goes
    out with [_next_id] 0. *)
Theorem as_bytes_carries_next_id :
  (forall (self : t) (w : world),
      exists j, asdict self w = (Ok j, w) /\
                object_keys j = ["id"; "method"; "params"; "_next_id"]) /\
  (forall (self : t) (w : world),
      as_bytes self w =
      (Ok (dq "{'id': " ++ dumps_int (id self) ++
           dq ", 'method': " ++ dumps_str (method self) ++
           dq ", 'params': " ++ json_dumps (JList (map param_json (params self))) ++
           dq ", '_next_id': " ++ dumps_int (_next_id w) ++ "}" ++ CRLF), w)) /\
  (exists cmd w1,
     bg_set_bright 100 default_effect default_duration (initial_world env_healthy) =
     (Ok cmd, w1) /\
     as_bytes cmd w1 =
     (Ok (dq "{'id': 0, 'method': 'bg_set_bright', 'params': [100, 'smooth', 500], '_next_id': 0}"
          ++ CRLF), w1)).
Proof.
  split; [| split].
  - intros self w. eexists. split; reflexivity.
  - intros self w. unfold as_bytes, asdict, bind, gets, ret.
    rewrite json_dumps_object4, !append_assoc. reflexivity.
  - eexists _, _. split; reflexivity.
Qed.

End Commands.

(** ** Properties the whole program keeps *)

Section Stable.

Variable P : world -> Prop.

Hypothesis P_emit : forall ev w, P w -> P (emit ev w).
Hypothesis P_sockets_made : forall n w, P w -> P (set_sockets_made n w).
Hypothesis P_grabs_made : forall n w, P w -> P (set_grabs_made n w).
Hypothesis P_cycles_done : forall n w, P w -> P (set_cycles_done n w).
Hypothesis P_next_id : forall v w, P w -> P (set_next_id v w).
Hypothesis P_convert_rgb :
  forall r g b, preserves P (CommandPayload.convert_rgb r g b).

Lemma cls_preserves (method_ : string) (params_ : list CommandPayload.param) :
  preserves P (CommandPayload.cls method_ params_).
Proof.
  unfold CommandPayload.cls, CommandPayload.__new__, CommandPayload.__init__.
  preserves_steps. now apply P_next_id.
Qed.

Lemma build_preserves (c : CommandPayload.builder_call) :
  preserves P (CommandPayload.build c).
Proof.
  destruct c; cbn [CommandPayload.build];
    unfold CommandPayload.bg_set_rgb, CommandPayload.bg_set_bright.
  - apply preserves_bind; [apply P_convert_rgb | intro; apply cls_preserves].
  - apply cls_preserves.
Qed.

Lemma send_command_preserves (self : LampController.t) (payload : CommandPayload.t) :
  preserves P (LampController.send_command self payload).
Proof.
  unfold LampController.send_command, LampController.send,
    LampController.socket_socket, LampController.socket_connect,
    LampController.socket_send, LampController.socket_close,
    CommandPayload.as_bytes, CommandPayload.asdict.
  apply preserves_bind.
  { preserves_steps. now apply P_emit, P_sockets_made. }
  intro sock. apply preserves_bind.
  { apply preserves_bind; [apply preserves_gets |].
    intros [e |]; preserves_steps; now apply P_emit. }
  intros _. apply preserves_try_finally.
  - apply preserves_bind; [preserves_steps |].
    intro data. apply preserves_bind; [apply preserves_gets |].
    intros [n | e]; preserves_steps; now apply P_emit.
  - preserves_steps. now apply P_emit.
Qed.

Lemma get_color_preserves (self : Ambilight.t) :
  preserves P (Ambilight.get_color self).
Proof.
  unfold Ambilight.get_color, ScreenController.get_screnshot,
    ScreenController.getcolors, ScreenController.get_screen_resolution.
  apply preserves_bind; [| intro; preserves_steps].
  apply preserves_bind; [apply preserves_gets |].
  intros [width height]. preserves_steps. now apply P_emit, P_grabs_made.
Qed.

Lemma send_set_color_command_preserves (self : Ambilight.t) (color : rgb) :
  preserves P (Ambilight.send_set_color_command self color).
Proof.
  destruct color as [[r g] b]. unfold Ambilight.send_set_color_command.
  apply preserves_bind.
  - apply (build_preserves (CommandPayload.CallSetRgb r g b _ _)).
  - intro. apply send_command_preserves.
Qed.

Lemma cycle_preserves (self : Ambilight.t) : preserves P (Ambilight.cycle self).
Proof.
  unfold Ambilight.cycle.
  apply preserves_bind; [apply get_color_preserves | intro color].
  apply preserves_bind; [apply send_set_color_command_preserves | intro status].
  apply preserves_bind; [apply preserves_modify; intros; now apply P_emit | intros _].
  apply preserves_bind; [apply preserves_gets | intro delta].
  destruct (Qle_bool (Ambilight.refresh_rate self) delta).
  - apply preserves_ret.
  - apply preserves_modify. intros. now apply P_emit.
Qed.

Hypothesis P_running : forall b w, P w -> P (set_running b w).

Lemma init_preserves (screen : ScreenController.t) (lamp : LampController.t)
    (refresh : Q) (initial_brightness : Z) :
  preserves P (Ambilight.__init__ screen lamp refresh initial_brightness).
Proof.
  unfold Ambilight.__init__, Ambilight.set_brightness.
  apply preserves_bind; [apply preserves_modify; intros; now apply P_running |].
  intros _. apply preserves_bind; [| intro; apply preserves_ret].
  apply preserves_bind.
  - apply (build_preserves (CommandPayload.CallSetBright _ _ _)).
  - intro. apply send_command_preserves.
Qed.

Lemma between_cycles_preserves (w : world) : P w -> P (Ambilight.between_cycles w).
Proof.
  intros Hw. unfold Ambilight.between_cycles.
  destruct (stop_requested (env w) (cycles_done w)).
  - now apply P_running, P_cycles_done.
  - now apply P_cycles_done.
Qed.

Lemma observe_stop_preserves (w : world) : P w -> P (Ambilight.observe_stop w).
Proof.
  intros Hw. unfold Ambilight.observe_stop.
  destruct (stop_requested (env w) (cycles_done w)); [now apply P_running | exact Hw].
Qed.

Lemma process_preserves (fuel : nat) (self : Ambilight.t) (w : world) :
  P w -> P (snd (Ambilight.process fuel self w)).
Proof.
  revert w. induction fuel as [| fuel IH]; intros w Hw; cbn [Ambilight.process].
  - destruct (_running w); exact Hw.
  - destruct (_running w); [| exact Hw].
    pose proof (cycle_preserves self w Hw) as Hcycle.
    destruct (Ambilight.cycle self w) as [[u | e] w']; cbn [snd] in Hcycle.
    + apply IH, between_cycles_preserves, Hcycle.
    + apply observe_stop_preserves, Hcycle.
Qed.

End Stable.

(** The body of the loop never writes the flag. *)
Lemma cycle_keeps_running (self : Ambilight.t) (b : bool) :
  preserves (fun w => _running w = b) (Ambilight.cycle self).
Proof.
  apply cycle_preserves; try (intros; assumption).
  intros r g bl w Hw.
  destruct (convert_rgb_total r g bl w) as (v & cache' & ->).
  exact Hw.
Qed.

(** Nor does it touch the outside's answers or the count of passes. *)
Lemma cycle_keeps_env (self : Ambilight.t) (e0 : environment) (n0 : nat) :
  preserves (fun w => env w = e0 /\ cycles_done w = n0) (Ambilight.cycle self).
Proof.
  apply cycle_preserves; try (intros; assumption).
  intros r g bl w Hw.
  destruct (convert_rgb_total r g bl w) as (v & cache' & ->).
  exact Hw.
Qed.

Lemma convert_rgb_keeps_cache_ok (r g b : Z) :
  preserves (fun w => CommandPayload.cache_ok (convert_rgb_cache w))
            (CommandPayload.convert_rgb r g b).
Proof.
  intros w Hw.
  destruct (convert_rgb_spec r g b w Hw) as (cache' & -> & Hok).
  exact Hok.
Qed.

(** The memoisation cache is sound at the start of the process and stays
    sound through construction and through any run of the worker. *)
Lemma cache_ok_initial (e : environment) :
  CommandPayload.cache_ok (convert_rgb_cache (initial_world e)).
Proof. constructor. Qed.

Lemma init_keeps_cache_ok (screen : ScreenController.t) (lamp : LampController.t)
    (refresh : Q) (initial_brightness : Z) :
  preserves (fun w => CommandPayload.cache_ok (convert_rgb_cache w))
            (Ambilight.__init__ screen lamp refresh initial_brightness).
Proof.
  apply init_preserves; try (intros; assumption).
  apply convert_rgb_keeps_cache_ok.
Qed.

Lemma process_keeps_cache_ok (fuel : nat) (self : Ambilight.t) (w : world) :
  CommandPayload.cache_ok (convert_rgb_cache w) ->
  CommandPayload.cache_ok (convert_rgb_cache (snd (Ambilight.process fuel self w))).
Proof.
  apply (process_preserves (fun w => CommandPayload.cache_ok (convert_rgb_cache w)));
    try (intros; assumption).
  apply convert_rgb_keeps_cache_ok.
Qed.

(** ** One socket per command *)

Section Sending.

Import LampController.

(** Two ways of writing the same world agree once the setters are opened
    and the trace is re-associated. *)
Ltac world_eq :=
  unfold after_send_command, emit, set_sockets_made, set_grabs_made,
    set_cycles_done, set_next_id, set_running, set_cache;
  cbn [env _next_id convert_rgb_cache _running sockets_made grabs_made
       cycles_done trace];
  rewrite <- ?app_assoc; reflexivity.

Lemma as_bytes_spec (payload : CommandPayload.t) (w : world) :
  CommandPayload.as_bytes payload w = (Ok (encoded payload (_next_id w)), w).
Proof. reflexivity. Qed.

(** Every path through [send_command], with the world it leaves. *)
Lemma send_command_cases (self : t) (payload : CommandPayload.t) (w : world) :
  let k := sockets_made w in
  let data := encoded payload (_next_id w) in
  send_command self payload w =
  match connect_result (env w) k with
  | Some e =>
      (Raise e,
       after_send_command w [EvSocket k; EvConnectFailed k (ip self) (port self)])
  | None =>
      match send_result (env w) k data with
      | Ok n =>
          let sent := Nat.min n (String.length data) in
          (Ok (Z.of_nat sent),
           after_send_command w
             [EvSocket k; EvConnect k (ip self) (port self);
              EvSend k (substring 0 sent data); EvClose k])
      | Raise e =>
          (Raise e,
           after_send_command w
             [EvSocket k; EvConnect k (ip self) (port self);
              EvSendFailed k; EvClose k])
      end
  end.
Proof.
  intros k data.
  unfold send_command, send, socket_socket, socket_connect, bind, gets, modify, ret,
    raise.
  cbn [env emit set_sockets_made sockets_made].
  fold k.
  destruct (connect_result (env w) k) as [e |].
  - world_eq.
  - unfold try_finally, bind. rewrite as_bytes_spec.
    unfold socket_send, socket_close, bind, gets, modify, ret, raise.
    cbn [env emit set_sockets_made sockets_made _next_id].
    fold data.
    destruct (send_result (env w) k data) as [n | e]; world_eq.
Qed.

(** C7, as stated, fails.  A transport that takes five bytes per [send]
    gets five of the 85 encoded bytes, and the call returns 5 without
    writing the rest.  And when the lamp refuses the connection the call
    ends in the [ConnectionError] with a socket made and no [close]. *)
Lemma send_command_short_write :
  (exists data w',
      CommandPayload.as_bytes sample_payload
        (world_after_first_command env_short_write) =
      (Ok data, world_after_first_command env_short_write) /\
      String.length data = 85%nat /\
      send_command sample_lamp sample_payload
        (world_after_first_command env_short_write) = (Ok 5, w') /\
      written_bytes (trace w') = [dq "{'id'"] /\
      written_bytes (trace w') <> [data]) /\
  (exists w',
      send_command sample_lamp sample_payload
        (world_after_first_command env_refused) = (Raise ConnectionError, w') /\
      trace w' = [EvSocket 0; EvConnectFailed 0 "192.168.1.50" 55443] /\
      closes (trace w') = 0%nat).
Proof.
  split.
  - eexists _, _.
    split; [reflexivity |].
    split; [reflexivity |].
    split; [reflexivity |].
    split; [reflexivity |].
    cbv. discriminate.
  - eexists. split; [reflexivity |]. split; reflexivity.
Qed.

(** C7, as amended.  Every call of [send_command] makes a new socket and
    tries to connect it.  When the connection is refused the call raises
    what [connect] raised.  When the connection is made, one [send] of the
    encoded bytes follows: either it returns, some prefix of the bytes was
    written and its length is the result of the call, or it raises and the
    call raises the same; on both of these exits the socket is closed, and
    that is the last thing the call does. *)
Theorem send_command_every_call (self : t) (payload : CommandPayload.t)
    (w : world) :
  let k := sockets_made w in
  let data := encoded payload (_next_id w) in
  let out := send_command self payload w in
  exists rest,
    sockets_made (snd out) = S k /\
    trace (snd out) = (trace w ++ EvSocket k :: rest)%list /\
    match connect_result (env w) k with
    | Some e =>
        fst out = Raise e /\
        exists rest', rest = EvConnectFailed k (ip self) (port self) :: rest'
    | None =>
        match send_result (env w) k data with
        | Ok n =>
            let sent := Nat.min n (String.length data) in
            fst out = Ok (Z.of_nat sent) /\
            rest = [EvConnect k (ip self) (port self);
                    EvSend k (substring 0 sent data); EvClose k]
        | Raise e =>
            fst out = Raise e /\
            rest = [EvConnect k (ip self) (port self); EvSendFailed k; EvClose k]
        end
    end.
Proof.
  intros k data out. subst out.
  rewrite send_command_cases. fold k data.
  destruct (connect_result (env w) k) as [e |];
    [| destruct (send_result (env w) k data) as [n | e]];
    cbn [fst snd after_send_command sockets_made trace];
    eexists; (split; [reflexivity |]); (split; [reflexivity |]);
    split; try reflexivity.
  eexists. reflexivity.
Qed.

End Sending.

(** ** Construction and the worker loop *)

Section Loop.

Import Ambilight.

Lemma send_attempts_app (t1 t2 : list event) :
  send_attempts (t1 ++ t2) = (send_attempts t1 + send_attempts t2)%nat.
Proof. unfold send_attempts. now rewrite filter_app, length_app. Qed.

Lemma init_unfold (screen : ScreenController.t) (lamp : LampController.t)
    (refresh : Q) (value : Z) (w : world) :
  __init__ screen lamp refresh value w =
  match
    LampController.send_command lamp
      (CommandPayload.mk (_next_id w + 1) "bg_set_bright"
         [CommandPayload.PInt value; CommandPayload.PStr "smooth";
          CommandPayload.PInt 500])
      (set_next_id (_next_id w + 1) (set_running false w))
  with
  | (Ok _, w') => (Ok (mk screen lamp refresh), w')
  | (Raise e, w') => (Raise e, w')
  end.
Proof.
  unfold __init__, set_brightness, bind, modify, ret.
  rewrite cls_spec_bright.
  cbn [_next_id set_running].
  destruct (LampController.send_command _ _ _) as [[n | e] w']; reflexivity.
Qed.

(** C8.  Constructing [Ambilight] with an initial brightness of 80 builds
    one command, with method ["bg_set_bright"] and parameters
    [[80, "smooth", 500]], and makes one [send_command] attempt with it.
    Nothing is grabbed from the screen, no cycle has run and the flag is
    down when the constructor is left.  A refused connection or a failed
    [send] leaves the constructor as the exception it is; otherwise the
    object is returned and what went on the wire is a prefix of the
    encoding of that command. *)
Theorem init_issues_one_brightness_command (screen : ScreenController.t)
    (lamp : LampController.t) (refresh : Q) (w : world) :
  let k := sockets_made w in
  let command :=
    CommandPayload.mk (_next_id w + 1) "bg_set_bright"
      [CommandPayload.PInt 80; CommandPayload.PStr "smooth"; CommandPayload.PInt 500] in
  let data := encoded command (_next_id w + 1) in
  let done := __init__ screen lamp refresh 80 w in
  exists evs,
    trace (snd done) = (trace w ++ evs)%list /\
    send_attempts evs = 1%nat /\
    grabs evs = 0%nat /\
    _next_id (snd done) = _next_id w + 1 /\
    cycles_done (snd done) = cycles_done w /\
    _running (snd done) = false /\
    match connect_result (env w) k with
    | Some e => fst done = Raise e /\ written_bytes evs = []
    | None =>
        match send_result (env w) k data with
        | Raise e => fst done = Raise e /\ written_bytes evs = []
        | Ok n =>
            fst done = Ok (mk screen lamp refresh) /\
            written_bytes evs = [substring 0 (Nat.min n (String.length data)) data]
        end
    end.
Proof.
  intros k command data done.
  subst done. rewrite init_unfold. fold command.
  rewrite send_command_cases.
  cbn [env set_next_id set_running sockets_made _next_id].
  fold k data.
  destruct (connect_result (env w) k) as [e |];
    [| destruct (send_result (env w) k data) as [n | e]];
    eexists; cbn [fst snd after_send_command trace _next_id cycles_done _running
                  set_next_id set_running];
    repeat split.
Qed.

(** The first command of a process, built by the constructor with a
    brightness of 80, as it goes on the wire. *)
Lemma init_brightness_80_on_the_wire :
  written_bytes
    (trace (snd (__init__ ScreenController.instance sample_lamp 1 80
                   (initial_world env_healthy)))) =
  [dq "{'id': 0, 'method': 'bg_set_bright', 'params': [80, 'smooth', 500], '_next_id': 0}"
   ++ CRLF].
Proof. reflexivity. Qed.

(** With the flag down the loop test fails at once and nothing is done. *)
Lemma process_returns_when_stopped (fuel : nat) (self : t) (w : world) :
  _running w = false -> process fuel self w = (Returned, w).
Proof. intros Hstop. destruct fuel; cbn [process]; now rewrite Hstop. Qed.

(** While the flag is up, [start] starts nothing: a worker that died of
    an exception is not replaced. *)
Lemma start_is_noop_while_running (self : t) (w : world) :
  _running w = true -> start self w = (Ok false, w).
Proof. intros Hrun. unfold start, bind, gets. now rewrite Hrun. Qed.

(** A cycle whose colour command meets a refused connection raises what
    [connect] raised. *)
Lemma cycle_raises_refused_connection (self : t) (w : world) (e : exception) :
  screen_colors (env w) (grabs_made w)
    (0, 0, fst (screen_resolution (env w) (grabs_made w)),
     snd (screen_resolution (env w) (grabs_made w)) / 10 * 3) <> [] ->
  connect_result (env w) (sockets_made w) = Some e ->
  exists w', cycle self w = (Raise e, w').
Proof.
  intros Hcolors Hconnect.
  unfold cycle, bind at 1.
  unfold get_color, ScreenController.get_screnshot, ScreenController.getcolors,
    ScreenController.get_screen_resolution, bind, gets, modify, lift, ret.
  destruct (screen_resolution (env w) (grabs_made w)) as [width height].
  cbn [env emit set_grabs_made grabs_made fst snd
       ScreenController.shot ScreenController.bbox] in *.
  rewrite (calculate_average_rgb_nonempty _ Hcolors).
  unfold send_set_color_command, CommandPayload.bg_set_rgb, bind.
  match goal with
  | |- context [CommandPayload.convert_rgb ?r ?g ?b ?w1] =>
      destruct (convert_rgb_total r g b w1) as (v & cache' & ->)
  end.
  rewrite cls_spec, send_command_cases.
  cbn [env emit set_grabs_made set_cache set_next_id sockets_made].
  rewrite Hconnect. eexists. reflexivity.
Qed.

(** C2, as stated, fails.  The constructor's command goes through, the
    first colour command is refused: [process] ends with the
    [ConnectionError], having made two [send_command] attempts in all, and
    no third one although the lamp would have taken it and the flag still
    says running. *)
Lemma process_does_not_survive_a_failed_cycle :
  _running (started_world env_second_refused) = true /\
  connect_result env_second_refused 2 = None /\
  exists w',
    process 5 sample_ambilight (started_world env_second_refused) =
    (Crashed ConnectionError, w') /\
    send_attempts (trace w') = 2%nat /\
    _running w' = true.
Proof.
  split; [vm_compute; reflexivity |].
  split; [reflexivity |].
  exists (snd (process 5 sample_ambilight (started_world env_second_refused))).
  split; [vm_compute; reflexivity |].
  split; vm_compute; reflexivity.
Qed.

(** C2, as amended.  An exception raised inside one cycle of the running
    loop is not caught by the loop: it leaves [process], which ends the
    worker.  The world is left as the failing cycle left it, so no later
    cycle runs and nothing more is sent, however long the worker would
    have been allowed to run.  The loop writes nothing to the flag: the
    failing cycle leaves it up, and it is down afterwards only if the
    controlling thread called [stop] while that cycle was running. *)
Theorem process_failure_ends_worker (fuel : nat) (self : t) (w w' : world)
    (e : exception) :
  _running w = true ->
  cycle self w = (Raise e, w') ->
  process (S fuel) self w =
  (Crashed e,
   if stop_requested (env w) (cycles_done w) then set_running false w' else w') /\
  _running (snd (process (S fuel) self w)) =
  negb (stop_requested (env w) (cycles_done w)).
Proof.
  intros Hrun Hcycle.
  pose proof (cycle_keeps_running self true w Hrun) as Hkeep.
  pose proof (cycle_keeps_env self (env w) (cycles_done w) w (conj eq_refl eq_refl))
    as [Henv Hdone].
  rewrite Hcycle in Hkeep, Henv, Hdone. cbn [snd] in Hkeep, Henv, Hdone.
  assert (Hgo : process (S fuel) self w =
                (Crashed e,
                 if stop_requested (env w) (cycles_done w)
                 then set_running false w' else w')).
  { cbn [process]. rewrite Hrun, Hcycle. unfold observe_stop.
    now rewrite Henv, Hdone. }
  split; [exact Hgo |].
  rewrite Hgo. cbn [snd].
  destruct (stop_requested (env w) (cycles_done w)); [reflexivity | exact Hkeep].
Qed.

Lemma process_failure_ends_worker_witness :
  _running (started_world env_second_refused) = true /\
  cycle sample_ambilight (started_world env_second_refused) =
  (Raise ConnectionError,
   snd (cycle sample_ambilight (started_world env_second_refused))) /\
  process 3 sample_ambilight (started_world env_second_refused) =
  (Crashed ConnectionError,
   if stop_requested (env (started_world env_second_refused))
        (cycles_done (started_world env_second_refused))
   then set_running false
          (snd (cycle sample_ambilight (started_world env_second_refused)))
   else snd (cycle sample_ambilight (started_world env_second_refused))) /\
  _running (snd (process 3 sample_ambilight (started_world env_second_refused))) =
  negb (stop_requested (env (started_world env_second_refused))
          (cycles_done (started_world env_second_refused))).
Proof.
  assert (Hrun : _running (started_world env_second_refused) = true)
    by (vm_compute; reflexivity).
  assert (Hcycle :
            cycle sample_ambilight (started_world env_second_refused) =
            (Raise ConnectionError,
             snd (cycle sample_ambilight (started_world env_second_refused))))
    by (vm_compute; reflexivity).
  split; [exact Hrun |].
  split; [exact Hcycle |].
  exact (process_failure_ends_worker 2 sample_ambilight
           (started_world env_second_refused) _ ConnectionError Hrun Hcycle).
Defined.

(** The two ways the flag can read after a crash: up when nobody called
    [stop], down when [stop] came during the failing cycle. *)
Lemma process_crash_flag_examples :
  _running (snd (process 3 sample_ambilight (started_world env_second_refused)))
  = true /\
  fst (process 3 sample_ambilight (running_world env_refused_stopped))
  = Crashed ConnectionError /\
  _running (snd (process 3 sample_ambilight (running_world env_refused_stopped)))
  = false.
Proof.
  split; [vm_compute; reflexivity |]. split; vm_compute; reflexivity.
Qed.

(** What C10 gives the loop: when the grab shows at least one colour and
    all colours are 8-bit, [get_color] returns an 8-bit colour. *)
Lemma get_color_rgb_ok (self : t) (w : world) :
  let colors :=
    screen_colors (env w) (grabs_made w)
      (0, 0, fst (screen_resolution (env w) (grabs_made w)),
       snd (screen_resolution (env w) (grabs_made w)) / 10 * 3) in
  colors <> [] ->
  Forall (fun entry => ScreenController.rgb_ok (snd entry)) colors ->
  exists c w', get_color self w = (Ok c, w') /\ ScreenController.rgb_ok c.
Proof.
  intros colors Hne Hall.
  destruct (calculate_average_rgb_range colors Hne Hall) as (c & Hc & Hok).
  exists c. unfold get_color, ScreenController.get_screnshot,
    ScreenController.getcolors, ScreenController.get_screen_resolution,
    bind, gets, modify, lift, ret.
  destruct (screen_resolution (env w) (grabs_made w)) as [width height] eqn:Hres.
  cbn [env emit set_grabs_made grabs_made fst snd
       ScreenController.shot ScreenController.bbox] in *.
  fold colors. rewrite Hc. eexists. split; [reflexivity | exact Hok].
Qed.

End Loop.

(** * Further properties *)

(** ** More on the colour reduction *)

Section AverageRgbMore.

Import ScreenController.

Lemma channel_sum_range (f : color_entry -> Z) (lo hi : Z)
    (colors : list color_entry) :
  Forall (fun entry => lo <= f entry <= hi) colors ->
  lo * Z.of_nat (List.length colors) <= channel_sum f colors
  <= hi * Z.of_nat (List.length colors).
Proof.
  unfold channel_sum.
  induction 1 as [| entry rest Hentry _ IH]; cbn [map fold_right List.length].
  - lia.
  - cbn beta in Hentry. nia.
Qed.

Lemma mean_between (total n lo hi : Z) :
  0 < n -> lo * n <= total <= hi * n -> lo <= total / n <= hi.
Proof.
  intros Hn [Hlo Hhi]. split.
  - apply Z.div_le_lower_bound; lia.
  - apply Z.div_le_upper_bound; lia.
Qed.

(** X1.  Each channel of the result lies between any two bounds that
    enclose that channel over the whole input, each channel with bounds
    of its own: the mean of a channel never leaves the range that channel
    takes in the colours it is taken of, whatever that range is. *)
Theorem calculate_average_rgb_between (lr hr lg hg lb hb : Z)
    (colors : list color_entry) :
  colors <> [] ->
  Forall (fun entry => lr <= red_of entry <= hr) colors ->
  Forall (fun entry => lg <= green_of entry <= hg) colors ->
  Forall (fun entry => lb <= blue_of entry <= hb) colors ->
  exists r g b,
    calculate_average_rgb colors = Ok (r, g, b) /\
    lr <= r <= hr /\ lg <= g <= hg /\ lb <= b <= hb.
Proof.
  intros Hne Hred Hgreen Hblue.
  rewrite (calculate_average_rgb_nonempty colors Hne).
  assert (Hn : 0 < Z.of_nat (List.length colors))
    by (pose proof (length_nonzero colors Hne); lia).
  eexists _, _, _. split; [reflexivity |].
  split; [| split]; apply mean_between; try exact Hn;
    now apply channel_sum_range.
Qed.

Lemma calculate_average_rgb_between_witness :
  [(7, (10, 200, 5)); (1, (20, 100, 7))] <> [] /\
  Forall (fun entry => 10 <= red_of entry <= 20)
         [(7, (10, 200, 5)); (1, (20, 100, 7))] /\
  Forall (fun entry => 100 <= green_of entry <= 200)
         [(7, (10, 200, 5)); (1, (20, 100, 7))] /\
  Forall (fun entry => 5 <= blue_of entry <= 7)
         [(7, (10, 200, 5)); (1, (20, 100, 7))] /\
  exists r g b,
    calculate_average_rgb [(7, (10, 200, 5)); (1, (20, 100, 7))] = Ok (r, g, b) /\
    10 <= r <= 20 /\ 100 <= g <= 200 /\ 5 <= b <= 7.
Proof.
  assert (Hne : [(7, (10, 200, 5)); (1, (20, 100, 7))] <> []) by discriminate.
  assert (Hred : Forall (fun entry => 10 <= red_of entry <= 20)
                   [(7, (10, 200, 5)); (1, (20, 100, 7))])
    by (repeat constructor; cbn; lia).
  assert (Hgreen : Forall (fun entry => 100 <= green_of entry <= 200)
                     [(7, (10, 200, 5)); (1, (20, 100, 7))])
    by (repeat constructor; cbn; lia).
  assert (Hblue : Forall (fun entry => 5 <= blue_of entry <= 7)
                    [(7, (10, 200, 5)); (1, (20, 100, 7))])
    by (repeat constructor; cbn; lia).
  split; [exact Hne |]. split; [exact Hred |]. split; [exact Hgreen |].
  split; [exact Hblue |].
  exact (calculate_average_rgb_between 10 20 100 200 5 7 _ Hne Hred Hgreen Hblue).
Defined.

Lemma channel_sum_perm (f : color_entry -> Z) (l1 l2 : list color_entry) :
  Permutation l1 l2 -> channel_sum f l1 = channel_sum f l2.
Proof.
  unfold channel_sum.
  induction 1 as [| x l l' _ IH | x y l | l l' l'' _ IH1 _ IH2];
    cbn [map fold_right]; lia.
Qed.

(** The call as a function of the channel sums and the length, on every
    list. *)
Lemma calculate_average_rgb_closed (colors : list color_entry) :
  calculate_average_rgb colors =
  match colors with
  | [] => Raise ZeroDivisionError
  | _ :: _ =>
      Ok (channel_sum red_of colors / Z.of_nat (List.length colors),
          channel_sum green_of colors / Z.of_nat (List.length colors),
          channel_sum blue_of colors / Z.of_nat (List.length colors))
  end.
Proof.
  destruct colors as [| entry rest]; [reflexivity |].
  apply calculate_average_rgb_nonempty. discriminate.
Qed.

(** X2.  The order of the entries does not matter: two lists that are
    permutations of each other give the same result, the empty list
    included (both raise). *)
Theorem calculate_average_rgb_permutation (l1 l2 : list color_entry) :
  Permutation l1 l2 -> calculate_average_rgb l1 = calculate_average_rgb l2.
Proof.
  intros Hperm. rewrite !calculate_average_rgb_closed.
  pose proof (Permutation_length Hperm) as Hlen.
  destruct l1 as [| e1 r1], l2 as [| e2 r2]; try discriminate; [reflexivity |].
  rewrite Hlen.
  now rewrite (channel_sum_perm red_of _ _ Hperm),
    (channel_sum_perm green_of _ _ Hperm), (channel_sum_perm blue_of _ _ Hperm).
Qed.

Lemma calculate_average_rgb_permutation_witness :
  Permutation [(3, (255, 0, 0)); (1, (0, 0, 0)); (2, (9, 9, 9))]
              [(1, (0, 0, 0)); (3, (255, 0, 0)); (2, (9, 9, 9))] /\
  calculate_average_rgb [(3, (255, 0, 0)); (1, (0, 0, 0)); (2, (9, 9, 9))] =
  calculate_average_rgb [(1, (0, 0, 0)); (3, (255, 0, 0)); (2, (9, 9, 9))].
Proof.
  assert (Hperm :
    Permutation [(3, (255, 0, 0)); (1, (0, 0, 0)); (2, (9, 9, 9))]
                [(1, (0, 0, 0)); (3, (255, 0, 0)); (2, (9, 9, 9))])
    by apply perm_swap.
  split; [exact Hperm |].
  exact (calculate_average_rgb_permutation _ _ Hperm).
Defined.

Lemma channel_sum_uniform (f : color_entry -> Z) (v : Z) (colors : list color_entry) :
  Forall (fun entry => f entry = v) colors ->
  channel_sum f colors = v * Z.of_nat (List.length colors).
Proof.
  unfold channel_sum.
  induction 1 as [| entry rest Hentry _ IH]; cbn [map fold_right List.length].
  - lia.
  - cbn beta in Hentry. lia.
Qed.

(** X3.  When every entry has the same colour, whatever the counts and
    however many entries there are, the result is that colour exactly:
    the floor division loses nothing. *)
Theorem calculate_average_rgb_uniform (c : rgb) (colors : list color_entry) :
  colors <> [] ->
  Forall (fun entry => snd entry = c) colors ->
  calculate_average_rgb colors = Ok c.
Proof.
  intros Hne Hall. destruct c as [[r g] b].
  rewrite (calculate_average_rgb_nonempty colors Hne).
  pose proof (length_nonzero colors Hne) as Hn.
  rewrite (channel_sum_uniform red_of r), (channel_sum_uniform green_of g),
    (channel_sum_uniform blue_of b);
    try (eapply Forall_impl; [| exact Hall];
         intros [count [[r' g'] b']]; unfold red_of, green_of, blue_of; cbn;
         now intros [= -> -> ->]).
  now rewrite !Z.div_mul.
Qed.

Lemma calculate_average_rgb_uniform_witness :
  [(5, (12, 200, 7)); (900, (12, 200, 7)); (1, (12, 200, 7))] <> [] /\
  Forall (fun entry => snd entry = (12, 200, 7))
         [(5, (12, 200, 7)); (900, (12, 200, 7)); (1, (12, 200, 7))] /\
  calculate_average_rgb
    [(5, (12, 200, 7)); (900, (12, 200, 7)); (1, (12, 200, 7))] = Ok (12, 200, 7).
Proof.
  assert (Hne : [(5, (12, 200, 7)); (900, (12, 200, 7)); (1, (12, 200, 7))] <> [])
    by discriminate.
  assert (Hall : Forall (fun entry : color_entry => snd entry = (12, 200, 7))
            [(5, (12, 200, 7)); (900, (12, 200, 7)); (1, (12, 200, 7))])
    by (repeat constructor).
  split; [exact Hne |]. split; [exact Hall |].
  exact (calculate_average_rgb_uniform (12, 200, 7) _ Hne Hall).
Defined.

(** X4.  [get_screnshot] grabs once, over the full width and over a band
    at the top whose height is [height // 10 * 3]: a multiple of 3, never
    more than three tenths of the screen height and less than that by at
    most 2.7 rows; on a screen lower than 10 rows the band is empty. *)
Theorem get_screnshot_band (w : world) :
  0 <= snd (screen_resolution (env w) (grabs_made w)) ->
  exists img w',
    get_screnshot w = (Ok img, w') /\
    bbox img = (0, 0, fst (screen_resolution (env w) (grabs_made w)), height img) /\
    width img = fst (screen_resolution (env w) (grabs_made w)) /\
    (let h := snd (screen_resolution (env w) (grabs_made w)) in
     3 * h - 27 <= 10 * height img <= 3 * h /\
     height img mod 3 = 0 /\
     (h < 10 -> height img = 0)) /\
    trace w' = (trace w ++ [EvGrab (grabs_made w) (bbox img)])%list /\
    grabs_made w' = S (grabs_made w).
Proof.
  intros Hh.
  unfold get_screnshot, get_screen_resolution, bind, gets, modify, ret.
  destruct (screen_resolution (env w) (grabs_made w)) as [W H].
  cbn [fst snd] in *.
  eexists _, _. split; [reflexivity |].
  unfold width, height. cbn [bbox shot trace grabs_made emit set_grabs_made].
  rewrite !Z.sub_0_r.
  pose proof (Z.div_mod H 10 ltac:(lia)) as Hdiv.
  pose proof (Z.mod_pos_bound H 10 ltac:(lia)) as Hmod.
  repeat split; try lia.
  all: try (intros Hsmall; rewrite Z.div_small; lia).
  all: now rewrite Z.mod_mul.
Qed.

Lemma get_screnshot_band_witness :
  0 <= snd (screen_resolution (env (initial_world env_healthy))
              (grabs_made (initial_world env_healthy))) /\
  exists img w',
    get_screnshot (initial_world env_healthy) = (Ok img, w') /\
    bbox img = (0, 0, 1920, 324).
Proof.
  assert (Hh : 0 <= snd (screen_resolution (env (initial_world env_healthy))
                           (grabs_made (initial_world env_healthy))))
    by (cbn; lia).
  split; [exact Hh |].
  destruct (get_screnshot_band (initial_world env_healthy) Hh)
    as (img & w' & Hrun & _).
  exists img, w'. split; [exact Hrun |].
  cbv in Hrun. injection Hrun as <- _. reflexivity.
Defined.

End AverageRgbMore.

(** ** More on the packing and its cache *)

Section PackingMore.

Import CommandPayload.

(** X5.  On 8-bit channels the packed value is a 24-bit number from which
    each channel is read back by division and remainder; so two 8-bit
    colours with the same packed value are the same colour. *)
Theorem pack_unpack (r g b : Z) :
  ScreenController.rgb_ok (r, g, b) ->
  0 <= pack r g b < 2 ^ 24 /\
  pack r g b / 65536 = r /\
  (pack r g b / 256) mod 256 = g /\
  pack r g b mod 256 = b /\
  (forall r' g' b',
      ScreenController.rgb_ok (r', g', b') ->
      pack r' g' b' = pack r g b -> (r', g', b') = (r, g, b)).
Proof.
  unfold ScreenController.rgb_ok, ScreenController.channel_ok, pack.
  intros (Hr & Hg & Hb).
  repeat split; try lia.
  - symmetry. apply (Z.div_unique _ _ _ (g * 256 + b)); lia.
  - replace (r * 65536 + g * 256 + b) with ((r * 256 + g) * 256 + b) by lia.
    rewrite Z.div_add_l, (Z.div_small b 256), Z.add_0_r by lia.
    rewrite Z.add_comm, Z.mod_add by lia. apply Z.mod_small. lia.
  - replace (r * 65536 + g * 256 + b) with (b + (r * 256 + g) * 256) by lia.
    rewrite Z.mod_add by lia. apply Z.mod_small. lia.
  - intros r' g' b' (Hr' & Hg' & Hb') Heq.
    assert (r' = r) by lia. subst r'.
    assert (g' = g) by lia. subst g'.
    assert (b' = b) by lia. subst b'. reflexivity.
Qed.

Lemma pack_unpack_witness :
  ScreenController.rgb_ok (12, 200, 7) /\
  0 <= pack 12 200 7 < 2 ^ 24 /\
  pack 12 200 7 / 65536 = 12 /\
  (pack 12 200 7 / 256) mod 256 = 200 /\
  pack 12 200 7 mod 256 = 7.
Proof.
  assert (Hok : ScreenController.rgb_ok (12, 200, 7))
    by (unfold ScreenController.rgb_ok, ScreenController.channel_ok; lia).
  split; [exact Hok |].
  destruct (pack_unpack 12 200 7 Hok) as (H1 & H2 & H3 & H4 & _).
  exact (conj H1 (conj H2 (conj H3 H4))).
Defined.

Lemma cache_remove_length (key : rgb) (cache : list (rgb * Z)) :
  (List.length (cache_remove key cache) <= List.length cache)%nat.
Proof.
  induction cache as [| [k v] rest IH]; cbn [cache_remove List.length]; [lia |].
  destruct (key_eqb key k); cbn [List.length]; lia.
Qed.

Lemma cache_remove_hit (key : rgb) (cache : list (rgb * Z)) (v : Z) :
  cache_lookup key cache = Some v ->
  (List.length (cache_remove key cache) < List.length cache)%nat.
Proof.
  induction cache as [| [k v'] rest IH];
    cbn [cache_lookup cache_remove List.length]; [discriminate |].
  destruct (key_eqb key k).
  - intros _. pose proof (cache_remove_length key rest). lia.
  - intros Hlook. specialize (IH Hlook). cbn [List.length]. lia.
Qed.

(** One call: the value is the packing, the cache stays sound and within
    its size. *)
Lemma convert_rgb_bounded (r g b : Z) (w : world) :
  cache_ok (convert_rgb_cache w) ->
  (List.length (convert_rgb_cache w) <= lru_maxsize)%nat ->
  exists cache',
    convert_rgb r g b w = (Ok (pack r g b), set_cache cache' w) /\
    cache_ok cache' /\
    (List.length cache' <= lru_maxsize)%nat /\
    cache_lookup (r, g, b) cache' = Some (pack r g b).
Proof.
  intros Hok Hlen. unfold convert_rgb, bind, gets, modify, ret.
  assert (Hself : key_eqb (r, g, b) (r, g, b) = true)
    by (unfold key_eqb; now rewrite !Z.eqb_refl).
  destruct (cache_lookup (r, g, b) (convert_rgb_cache w)) as [v |] eqn:Hlook.
  - pose proof (cache_remove_hit _ _ _ Hlook) as Hshort.
    apply (cache_lookup_ok _ _ _ _ _ Hok) in Hlook. subst v.
    eexists. split; [reflexivity |]. split; [| split].
    + constructor; [reflexivity | now apply cache_remove_ok].
    + cbn [List.length]. lia.
    + cbn [cache_lookup]. now rewrite Hself.
  - eexists. split; [reflexivity |]. split; [| split].
    + apply firstn_cache_ok. constructor; [reflexivity | exact Hok].
    + rewrite length_firstn. lia.
    + unfold lru_maxsize. cbn [firstn cache_lookup]. now rewrite Hself.
Qed.

Lemma convert_all_spec (calls : list rgb) (w : world) :
  cache_ok (convert_rgb_cache w) ->
  (List.length (convert_rgb_cache w) <= lru_maxsize)%nat ->
  exists cache',
    convert_all calls w =
    (Ok (map (fun c : rgb => let '(r, g, b) := c in pack r g b) calls),
     set_cache cache' w) /\
    cache_ok cache' /\
    (List.length cache' <= lru_maxsize)%nat.
Proof.
  revert w. induction calls as [| [[r g] b] rest IH]; intros w Hok Hlen.
  - exists (convert_rgb_cache w). split; [| split; assumption].
    destruct w; reflexivity.
  - destruct (convert_rgb_bounded r g b w Hok Hlen)
      as (cache1 & Hcall & Hok1 & Hlen1 & _).
    destruct (IH (set_cache cache1 w) Hok1 Hlen1) as (cache2 & Hrest & Hok2 & Hlen2).
    exists cache2. split; [| split; assumption].
    cbn [convert_all map]. unfold bind. rewrite Hcall, Hrest. reflexivity.
Qed.

(** X6.  Memoisation never shows.  Whatever calls of [convert_rgb] a
    process makes from its start, in whatever order and however often
    repeated, each call returns [r*65536 + g*256 + b] for its own
    arguments; the cache never holds more than 128 entries and nothing
    else in the world changes. *)
Theorem convert_rgb_memoisation_invisible (e : environment) (calls : list rgb) :
  exists cache',
    convert_all calls (initial_world e) =
    (Ok (map (fun c : rgb => let '(r, g, b) := c in r * 65536 + g * 256 + b) calls),
     set_cache cache' (initial_world e)) /\
    (List.length cache' <= 128)%nat.
Proof.
  destruct (convert_all_spec calls (initial_world e)) as (cache' & Hrun & _ & Hlen).
  - constructor.
  - cbn. unfold lru_maxsize. lia.
  - exists cache'. split; [exact Hrun | exact Hlen].
Qed.

End PackingMore.

(** ** The worker loop, cycle by cycle *)

Section LoopMore.

Import Ambilight.

Lemma get_color_spec (self : t) (w : world) :
  get_color self w =
  (ScreenController.calculate_average_rgb (next_colors w),
   emit (EvGrab (grabs_made w) (next_box w)) (set_grabs_made (S (grabs_made w)) w)).
Proof.
  unfold get_color, ScreenController.get_screnshot, ScreenController.getcolors,
    ScreenController.get_screen_resolution, bind, gets, modify, lift, ret,
    next_colors, next_box.
  destruct (screen_resolution (env w) (grabs_made w)) as [width height].
  reflexivity.
Qed.

(** Every path through one cycle.  [v] is the packing [convert_rgb]
    returned; with a sound cache it is the packing of the mean colour. *)
Lemma cycle_cases (self : t) (w : world) :
  exists v w',
    cycle self w = (fst (cycle_plan self w v), w') /\
    cycle_frame w w' (snd (cycle_plan self w v)) /\
    (forall c, ScreenController.calculate_average_rgb (next_colors w) = Ok c ->
               sockets_made w' = S (sockets_made w) /\
               _next_id w' = _next_id w + 1) /\
    (CommandPayload.cache_ok (convert_rgb_cache w) ->
     CommandPayload.cache_ok (convert_rgb_cache w') /\
     forall r g b,
       ScreenController.calculate_average_rgb (next_colors w) = Ok (r, g, b) ->
       v = CommandPayload.pack r g b).
Proof.
  unfold cycle, cycle_plan, cycle_frame, bind at 1.
  rewrite get_color_spec.
  destruct (ScreenController.calculate_average_rgb (next_colors w))
    as [[[r g] b] | e] eqn:Havg.
  - cbv beta iota. unfold send_set_color_command.
    set (w1 := emit (EvGrab (grabs_made w) (next_box w))
                 (set_grabs_made (S (grabs_made w)) w)).
    destruct (convert_rgb_total r g b w1) as (v & cache' & Hconv).
    pose proof (convert_rgb_spec r g b w1) as Hsound.
    rewrite Hconv in Hsound.
    assert (Hbuild :
              CommandPayload.bg_set_rgb r g b CommandPayload.default_effect
                CommandPayload.default_duration w1 =
              (Ok (color_command w v),
               set_next_id (_next_id w + 1) (set_cache cache' w1))).
    { unfold CommandPayload.bg_set_rgb, bind. rewrite Hconv, cls_spec. reflexivity. }
    exists v. unfold bind at 1 2. rewrite Hbuild, send_command_cases.
    subst w1.
    cbn [env emit set_grabs_made set_cache set_next_id sockets_made _next_id
         convert_rgb_cache] in *.
    assert (Hcache : CommandPayload.cache_ok (convert_rgb_cache w) ->
                     CommandPayload.cache_ok cache' /\ v = CommandPayload.pack r g b).
    { intros Hok. destruct (Hsound Hok) as (cache'' & Heq & Hok'').
      injection Heq as -> Hw. split; [| reflexivity]. now subst cache''. }
    destruct (connect_result (env w) (sockets_made w)) as [e |];
      [| destruct (send_result (env w) (sockets_made w)
                     (encoded (color_command w v) (_next_id w + 1))) as [n | e]].
    + eexists. split; [reflexivity |].
      split; [repeat split; cbn; rewrite <- ?app_assoc; reflexivity |].
      split; [intros; split; reflexivity |].
      intros Hok. destruct (Hcache Hok) as [Hok' ->]. split; [exact Hok' |].
      now intros r' g' b' [= -> -> ->].
    + unfold bind, modify, gets, cycle_sleep.
      cbn [env emit after_send_command cycles_done set_next_id set_cache
           set_grabs_made].
      destruct (Qle_bool (refresh_rate self) (elapsed (env w) (cycles_done w)));
        (eexists; split; [reflexivity |];
         split; [repeat split; cbn; rewrite <- ?app_assoc; reflexivity |];
         split; [intros; split; reflexivity |];
         intros Hok; destruct (Hcache Hok) as [Hok' ->]; split; [exact Hok' |];
         now intros r' g' b' [= -> -> ->]).
    + eexists. split; [reflexivity |].
      split; [repeat split; cbn; rewrite <- ?app_assoc; reflexivity |].
      split; [intros; split; reflexivity |].
      intros Hok. destruct (Hcache Hok) as [Hok' ->]. split; [exact Hok' |].
      now intros r' g' b' [= -> -> ->].
  - exists 0. eexists. split; [reflexivity |].
    split; [repeat split |].
    split; [intros c [=] |].
    intros Hok. split; [exact Hok | intros r g b [=]].
Qed.

End LoopMore.

(** ** Whole runs of the worker *)

Section LoopRuns.

Import Ambilight.

Variable self : t.

Lemma written_bytes_app (t1 t2 : list event) :
  written_bytes (t1 ++ t2) = (written_bytes t1 ++ written_bytes t2)%list.
Proof.
  induction t1 as [| ev rest IH]; [reflexivity |].
  destruct ev; cbn [written_bytes app]; rewrite IH; reflexivity.
Qed.

Lemma between_cycles_trace (w : world) : trace (between_cycles w) = trace w.
Proof.
  unfold between_cycles. now destruct (stop_requested (env w) (cycles_done w)).
Qed.

Lemma between_cycles_env (w : world) : env (between_cycles w) = env w.
Proof.
  unfold between_cycles. now destruct (stop_requested (env w) (cycles_done w)).
Qed.

Lemma observe_stop_trace (w : world) : trace (observe_stop w) = trace w.
Proof.
  unfold observe_stop. now destruct (stop_requested (env w) (cycles_done w)).
Qed.

(** Induction over a run in an outside [e0]: a property of the events a
    run leaves and of the way it ends holds as soon as it holds for no
    event, for a failing cycle, and for a good cycle followed by a run
    that has it. *)
Lemma process_events_ind (e0 : environment) (Q : list event -> outcome -> Prop) :
  Q [] Returned ->
  Q [] StillRunning ->
  (forall w v evs e,
      env w = e0 -> cycle_plan self w v = (Raise e, evs) -> Q evs (Crashed e)) ->
  (forall w v evs rest o,
      env w = e0 -> cycle_plan self w v = (Ok tt, evs) -> Q rest o ->
      Q (evs ++ rest)%list o) ->
  forall fuel w,
    env w = e0 ->
    exists evs,
      trace (snd (process fuel self w)) = (trace w ++ evs)%list /\
      Q evs (fst (process fuel self w)).
Proof.
  intros Hret Hstill Hfail Hgood fuel.
  induction fuel as [| fuel IH]; intros w Hw; cbn [process].
  - destruct (_running w); exists []; rewrite app_nil_r; cbn; auto.
  - destruct (_running w); [| exists []; rewrite app_nil_r; cbn; auto].
    destruct (cycle_cases self w) as (v & w' & Hcycle & Hframe & _).
    destruct Hframe as (Henv & _ & _ & _ & Htrace).
    rewrite Hcycle.
    destruct (cycle_plan self w v) as [[[] | e] evs] eqn:Hplan; cbn [fst snd] in *.
    + destruct (IH (between_cycles w')) as (rest & Hrest & HQ).
      { rewrite between_cycles_env. congruence. }
      exists (evs ++ rest)%list. split.
      * rewrite Hrest, between_cycles_trace, Htrace. now rewrite app_assoc.
      * eapply Hgood; eauto.
    + exists evs. split; [now rewrite observe_stop_trace | eapply Hfail; eauto].
Qed.

(** The events of a good cycle and of a failing one. *)
Lemma cycle_plan_good (w : world) (v : Z) (evs : list event) :
  cycle_plan self w v = (Ok tt, evs) ->
  exists box ip port sent status tail,
    evs = ([EvGrab (grabs_made w) box; EvSocket (sockets_made w);
            EvConnect (sockets_made w) ip port; EvSend (sockets_made w) sent;
            EvClose (sockets_made w); EvLog status] ++ tail)%list /\
    (tail = [] \/ exists d, tail = [EvSleep d] /\ Qlt 0 d).
Proof.
  unfold cycle_plan.
  destruct (ScreenController.calculate_average_rgb (next_colors w)); [| discriminate].
  destruct (connect_result (env w) (sockets_made w)); [discriminate |].
  destruct (send_result _ _ _) as [n | e]; [| discriminate].
  intros [= <-]. eexists _, _, _, _, _, _. split; [reflexivity |].
  unfold cycle_sleep.
  destruct (Qle_bool (refresh_rate self) (elapsed (env w) (cycles_done w))) eqn:Hle;
    [left; reflexivity | right].
  eexists. split; [reflexivity |].
  apply (proj1 (Qlt_minus_iff _ _)). apply Qnot_le_lt. intros Hq.
  apply Qle_bool_iff in Hq. congruence.
Qed.

Lemma cycle_plan_bad (w : world) (v : Z) (evs : list event) (e : exception) :
  cycle_plan self w v = (Raise e, evs) ->
  (exists box, evs = [EvGrab (grabs_made w) box]) \/
  (exists box ip port,
      evs = [EvGrab (grabs_made w) box; EvSocket (sockets_made w);
             EvConnectFailed (sockets_made w) ip port] /\
      connect_result (env w) (sockets_made w) = Some e) \/
  (exists box ip port,
      evs = [EvGrab (grabs_made w) box; EvSocket (sockets_made w);
             EvConnect (sockets_made w) ip port; EvSendFailed (sockets_made w);
             EvClose (sockets_made w)]).
Proof.
  unfold cycle_plan.
  destruct (ScreenController.calculate_average_rgb (next_colors w));
    [| intros [= <- <-]; left; eauto].
  destruct (connect_result (env w) (sockets_made w)) as [e' |] eqn:Hconnect.
  - intros [= <- <-]. right; left. eauto.
  - destruct (send_result _ _ _) as [n | e'']; [discriminate |].
    intros [= <- <-]. right; right. eauto.
Qed.

(** Takes an explicit membership apart. *)
Ltac in_cases H :=
  repeat (destruct H as [H | H]; [try discriminate H |]); try contradiction H.

(** X7.  Whatever the outside does and however a run of the worker ends:
    every connection the run established is closed by it, on the same
    socket and right after the one [send] made on it; and a socket the run
    made and did not close is one whose connection was refused, its
    refusal is the last thing the run did, and the run ended in the very
    exception [connect] raised. *)
Theorem process_connections_balanced (fuel : nat) (w : world) :
  exists evs,
    trace (snd (process fuel self w)) = (trace w ++ evs)%list /\
    (forall k ip port,
        In (EvConnect k ip port) evs ->
        exists pre mid post,
          evs = (pre ++ EvConnect k ip port :: mid :: EvClose k :: post)%list /\
          (mid = EvSendFailed k \/ exists data, mid = EvSend k data)) /\
    (forall k,
        In (EvSocket k) evs ->
        In (EvClose k) evs \/
        exists pre ip port e,
          evs = (pre ++ [EvSocket k; EvConnectFailed k ip port])%list /\
          connect_result (env w) k = Some e /\
          fst (process fuel self w) = Crashed e).
Proof.
  apply (process_events_ind (env w)
           (fun evs o =>
              (forall k ip port,
                  In (EvConnect k ip port) evs ->
                  exists pre mid post,
                    evs = (pre ++ EvConnect k ip port :: mid :: EvClose k :: post)%list /\
                    (mid = EvSendFailed k \/ exists data, mid = EvSend k data)) /\
              (forall k,
                  In (EvSocket k) evs ->
                  In (EvClose k) evs \/
                  exists pre ip port e,
                    evs = (pre ++ [EvSocket k; EvConnectFailed k ip port])%list /\
                    connect_result (env w) k = Some e /\
                    o = Crashed e)));
    [| | | | reflexivity].
  - split; intros; contradiction.
  - split; intros; contradiction.
  - intros w0 v evs e Henv Hplan.
    destruct (cycle_plan_bad w0 v evs e Hplan)
      as [(box & ->) | [(box & ip & port & -> & Hrefused) | (box & ip & port & ->)]].
    + split; [intros k ip port Hin | intros k Hin]; in_cases Hin.
    + split; [intros k ip' port' Hin | intros k Hin]; in_cases Hin.
      injection Hin as <-. right.
      exists [EvGrab (grabs_made w0) box], ip, port, e.
      rewrite <- Henv. repeat split; auto.
    + split; [intros k ip' port' Hin | intros k Hin]; in_cases Hin.
      * injection Hin as <- <- <-.
        exists [EvGrab (grabs_made w0) box; EvSocket (sockets_made w0)],
          (EvSendFailed (sockets_made w0)), [].
        split; [reflexivity | left; reflexivity].
      * injection Hin as <-. left. cbn. auto 6.
  - intros w0 v evs rest o Henv Hplan (Hconn & Hsock).
    destruct (cycle_plan_good w0 v evs Hplan)
      as (box & ip & port & sent & status & tail & -> & Htail).
    split.
    + intros k ip' port' Hin. apply in_app_or in Hin. destruct Hin as [Hin | Hin].
      * apply in_app_or in Hin. destruct Hin as [Hin | Hin].
        -- in_cases Hin. injection Hin as <- <- <-.
           exists [EvGrab (grabs_made w0) box; EvSocket (sockets_made w0)],
             (EvSend (sockets_made w0) sent), (EvLog status :: tail ++ rest)%list.
           split; [| right; eauto].
           rewrite <- app_assoc. reflexivity.
        -- destruct Htail as [-> | (d & -> & _)]; in_cases Hin.
      * destruct (Hconn k ip' port' Hin) as (pre & mid & post & -> & Hmid).
        eexists. exists mid, post. split; [apply app_assoc | exact Hmid].
    + intros k Hin. apply in_app_or in Hin. destruct Hin as [Hin | Hin].
      * apply in_app_or in Hin. destruct Hin as [Hin | Hin].
        -- in_cases Hin. injection Hin as <-. left.
           apply in_or_app. left. apply in_or_app. left. cbn. auto 6.
        -- destruct Htail as [-> | (d & -> & _)]; in_cases Hin.
      * destruct (Hsock k Hin) as [Hclosed | (pre & ip' & port' & e & -> & Hrefused & ->)].
        -- left. apply in_or_app. right. exact Hclosed.
        -- right. eexists. exists ip', port', e.
           split; [apply app_assoc | auto].
Qed.

(** X8.  No run of the worker ever asks for a sleep of zero or negative
    length: every sleep in the events of a run is strictly positive. *)
Theorem process_sleeps_positive (fuel : nat) (w : world) :
  exists evs,
    trace (snd (process fuel self w)) = (trace w ++ evs)%list /\
    Forall is_sleep_positive evs.
Proof.
  apply (process_events_ind (env w) (fun evs _ => Forall is_sleep_positive evs));
    [| | | | reflexivity].
  - constructor.
  - constructor.
  - intros w0 v evs e _ Hplan.
    destruct (cycle_plan_bad w0 v evs e Hplan)
      as [(box & ->) | [(box & ip & port & -> & _) | (box & ip & port & ->)]];
      repeat constructor.
  - intros w0 v evs rest o _ Hplan Hrest.
    destruct (cycle_plan_good w0 v evs Hplan)
      as (box & ip & port & sent & status & tail & -> & Htail).
    apply Forall_app. split; [| exact Hrest].
    apply Forall_app. split; [repeat constructor |].
    destruct Htail as [-> | (d & -> & Hd)]; repeat constructor. exact Hd.
Qed.

(** X9.  The way a run ends tells the flag.  [process] returns only with
    the flag down, and a run that was cut short leaves the flag up.  The
    loop itself never writes the flag: after a run that ended in an
    exception the flag is up, unless the controlling thread called [stop]
    while the failing cycle was running, and then it is down. *)
Theorem process_outcome_flag (fuel : nat) (w : world) :
  match fst (process fuel self w) with
  | Returned => _running (snd (process fuel self w)) = false
  | StillRunning => _running (snd (process fuel self w)) = true
  | Crashed _ =>
      _running (snd (process fuel self w)) =
      negb (stop_requested (env (snd (process fuel self w)))
              (cycles_done (snd (process fuel self w))))
  end.
Proof.
  revert w. induction fuel as [| fuel IH]; intros w; cbn [process].
  - destruct (_running w) eqn:Hrun; exact Hrun.
  - destruct (_running w) eqn:Hrun; [| exact Hrun].
    pose proof (cycle_keeps_running self true w Hrun) as Hkeep.
    destruct (cycle self w) as [[u | e] w']; cbn [fst snd] in *.
    + apply IH.
    + unfold observe_stop.
      destruct (stop_requested (env w') (cycles_done w')) eqn:Hstop;
        cbn [_running env cycles_done set_running]; rewrite Hstop;
        [reflexivity | exact Hkeep].
Qed.

End LoopRuns.

(** ** Runs the outside does not disturb *)

Section HealthyRuns.

Import Ambilight.

Variable self : t.

Lemma substring_full (s : string) : substring 0 (String.length s) s = s.
Proof.
  induction s as [| c s IH]; cbn [String.length substring]; [reflexivity |].
  now rewrite IH.
Qed.

Lemma cycle_sleep_writes_nothing (w : world) :
  written_bytes (cycle_sleep self w) = [].
Proof.
  unfold cycle_sleep.
  now destruct (Qle_bool (refresh_rate self) (elapsed (env w) (cycles_done w))).
Qed.

(** One cycle against a lamp that connects and takes all it is sent, with
    something on the screen. *)
Lemma healthy_cycle (w : world) :
  connect_result (env w) (sockets_made w) = None ->
  (forall data, exists n,
      send_result (env w) (sockets_made w) data = Ok n /\
      (String.length data <= n)%nat) ->
  next_colors w <> [] ->
  CommandPayload.cache_ok (convert_rgb_cache w) ->
  exists w',
    cycle self w = (Ok tt, w') /\
    env w' = env w /\
    _running w' = _running w /\
    cycles_done w' = cycles_done w /\
    grabs_made w' = S (grabs_made w) /\
    sockets_made w' = S (sockets_made w) /\
    _next_id w' = _next_id w + 1 /\
    CommandPayload.cache_ok (convert_rgb_cache w') /\
    written_bytes (trace w') =
    (written_bytes (trace w) ++
     [color_wire (env w) (_next_id w + 1) (grabs_made w)])%list.
Proof.
  intros Hconnect Hsend Hcolors Hcache.
  destruct (cycle_cases self w) as (v & w' & Hcycle & Hframe & Hcount & Hsound).
  destruct Hframe as (Henv & Hrun & Hdone & Hgrabs & Htrace).
  destruct (Hsound Hcache) as (Hcache' & Hv).
  pose proof (calculate_average_rgb_nonempty _ Hcolors) as Havg.
  match type of Havg with _ = Ok (?r, ?g, ?b) =>
    specialize (Hv r g b Havg); specialize (Hcount _ Havg)
  end.
  destruct Hcount as (Hsock & Hid).
  assert (Hwire : encoded (color_command w v) (_next_id w + 1) =
                  color_wire (env w) (_next_id w + 1) (grabs_made w)).
  { unfold color_wire, color_command, mean_packed.
    change (grab_colors (env w) (grabs_made w)) with (next_colors w).
    rewrite Havg, Hv. reflexivity. }
  destruct (Hsend (encoded (color_command w v) (_next_id w + 1)))
    as (n & Hn & Hlen).
  unfold cycle_plan in Hcycle, Htrace.
  rewrite Havg, Hconnect, Hn in Hcycle, Htrace. cbn [fst snd] in Hcycle, Htrace.
  exists w'. repeat (split; [assumption |]).
  rewrite Htrace, !written_bytes_app, cycle_sleep_writes_nothing, app_nil_r.
  cbn [written_bytes].
  rewrite Nat.min_r by exact Hlen. now rewrite substring_full, Hwire.
Qed.

(** [n] undisturbed cycles in a row: the run goes on from a world that
    is [n] cycles, grabs, sockets and identifiers further and whose wire
    got the [n] colour commands. *)
Lemma process_healthy_prefix (n : nat) (w : world) :
  lamp_reachable (env w) ->
  lamp_takes_all (env w) ->
  screen_shows (env w) ->
  (forall i, (i < n)%nat -> stop_requested (env w) (cycles_done w + i) = false) ->
  _running w = true ->
  CommandPayload.cache_ok (convert_rgb_cache w) ->
  exists w',
    (forall fuel, process (n + fuel) self w = process fuel self w') /\
    env w' = env w /\
    _running w' = true /\
    CommandPayload.cache_ok (convert_rgb_cache w') /\
    cycles_done w' = (cycles_done w + n)%nat /\
    grabs_made w' = (grabs_made w + n)%nat /\
    sockets_made w' = (sockets_made w + n)%nat /\
    _next_id w' = _next_id w + Z.of_nat n /\
    written_bytes (trace w') =
    (written_bytes (trace w) ++
     map (fun i => color_wire (env w) (_next_id w + 1 + Z.of_nat i)
                     (grabs_made w + i))
         (seq 0 n))%list.
Proof.
  revert w. induction n as [| n IH]; intros w Hreach Htakes Hshows Hstop Hrun Hcache.
  - exists w. rewrite !Nat.add_0_r, Z.add_0_r, app_nil_r. repeat split; auto.
  - destruct (healthy_cycle w (Hreach _) (Htakes _) (Hshows _ _) Hcache)
      as (w1 & Hcycle & Henv & Hrun1 & Hdone & Hgrabs & Hsock & Hid & Hcache1 & Hbytes).
    assert (Hnostop : stop_requested (env w) (cycles_done w) = false)
      by (rewrite <- (Nat.add_0_r (cycles_done w)); apply Hstop; lia).
    set (w2 := between_cycles w1).
    assert (Hw2 : w2 = set_cycles_done (S (cycles_done w)) w1).
    { unfold w2, between_cycles. now rewrite Henv, Hdone, Hnostop. }
    destruct (IH w2) as (w' & Hgo & Henv' & Hrun' & Hcache' & Hdone' & Hgrabs'
                         & Hsock' & Hid' & Hbytes').
    + rewrite Hw2. cbn [env set_cycles_done]. now rewrite Henv.
    + rewrite Hw2. cbn [env set_cycles_done]. now rewrite Henv.
    + rewrite Hw2. cbn [env set_cycles_done]. now rewrite Henv.
    + intros i Hi. rewrite Hw2. cbn [env set_cycles_done cycles_done].
      rewrite Henv.
      replace (S (cycles_done w) + i)%nat with (cycles_done w + S i)%nat by lia.
      apply Hstop. lia.
    + rewrite Hw2. cbn [_running set_cycles_done]. congruence.
    + rewrite Hw2. exact Hcache1.
    + rewrite Hw2 in *. cbn [env set_cycles_done cycles_done grabs_made
                              sockets_made _next_id trace] in *.
      exists w'. split; [| repeat split].
      * intros fuel. cbn [Nat.add process]. rewrite Hrun, Hcycle.
        fold w2. rewrite <- Hgo. now rewrite Hw2.
      * congruence.
      * exact Hrun'.
      * exact Hcache'.
      * lia.
      * lia.
      * lia.
      * lia.
      * rewrite Hbytes', Hbytes, Henv, Hgrabs, Hid, <- app_assoc.
        f_equal. cbn [seq map app].
        rewrite Nat.add_0_r, Z.add_0_r. f_equal.
        rewrite <- seq_shift, map_map. apply map_ext. intros i.
        f_equal; lia.
Qed.


(** X11.  [stop] is cooperative.  Against the same outside, when the
    controlling thread calls [stop] during cycle number [j] of the run
    (and not before), the worker finishes that cycle, command included,
    and then returns: [j + 1] cycles were run and [j + 1] commands sent,
    whatever further time the worker would have been given. *)
Theorem process_stop_is_cooperative (j fuel : nat) (w : world) :
  lamp_reachable (env w) ->
  lamp_takes_all (env w) ->
  screen_shows (env w) ->
  (forall i, (i < j)%nat -> stop_requested (env w) (cycles_done w + i) = false) ->
  stop_requested (env w) (cycles_done w + j) = true ->
  _running w = true ->
  CommandPayload.cache_ok (convert_rgb_cache w) ->
  (j < fuel)%nat ->
  exists w',
    process fuel self w = (Returned, w') /\
    _running w' = false /\
    cycles_done w' = (cycles_done w + S j)%nat /\
    written_bytes (trace w') =
    (written_bytes (trace w) ++
     map (fun i => color_wire (env w) (_next_id w + 1 + Z.of_nat i)
                     (grabs_made w + i))
         (seq 0 (S j)))%list.
Proof.
  intros Hreach Htakes Hshows Hbefore Hstop Hrun Hcache Hfuel.
  destruct (process_healthy_prefix j w Hreach Htakes Hshows Hbefore Hrun Hcache)
    as (w1 & Hgo & Henv1 & Hrun1 & Hcache1 & Hdone1 & Hgrabs1 & Hsock1 & Hid1
        & Hbytes1).
  destruct (healthy_cycle w1) as (w2 & Hcycle & Henv2 & Hrun2 & Hdone2 & _ & _ & _
                                  & _ & Hbytes2).
  { rewrite Henv1. apply Hreach. }
  { rewrite Henv1. apply Htakes. }
  { unfold next_colors. rewrite Henv1. apply Hshows. }
  { exact Hcache1. }
  replace fuel with (j + S (fuel - S j))%nat by lia.
  rewrite Hgo. cbn [process]. rewrite Hrun1, Hcycle.
  assert (Hw3 : between_cycles w2 =
                set_running false (set_cycles_done (S (cycles_done w2)) w2)).
  { unfold between_cycles. now rewrite Henv2, Henv1, Hdone2, Hdone1, Hstop. }
  rewrite Hw3, process_returns_when_stopped by reflexivity.
  eexists. split; [reflexivity |].
  cbn [_running cycles_done trace set_running set_cycles_done].
  split; [reflexivity |]. split; [lia |].
  rewrite Hbytes2, Hbytes1, Henv1, Hid1, Hgrabs1, <- app_assoc. f_equal.
  rewrite seq_S, map_app. cbn [map Nat.add]. do 3 f_equal. lia.
Qed.

(** X12.  The worker never returns of itself: with the flag up and no
    [stop] from the controlling thread, a run ends in an exception or is
    still going, whatever the lamp and the screen do. *)
Theorem process_never_returns_unasked (fuel : nat) (w : world) :
  (forall k, stop_requested (env w) k = false) ->
  _running w = true ->
  fst (process fuel self w) <> Returned.
Proof.
  revert w. induction fuel as [| fuel IH]; intros w Hstop Hrun; cbn [process];
    rewrite Hrun; [discriminate |].
  destruct (cycle_cases self w) as (v & w' & Hcycle & Hframe & _).
  destruct Hframe as (Henv & Hrun' & Hdone & _ & _).
  rewrite Hcycle.
  destruct (fst (cycle_plan self w v)) as [[] | e]; [| discriminate].
  assert (Hnext : between_cycles w' = set_cycles_done (S (cycles_done w')) w').
  { unfold between_cycles. now rewrite Henv, Hstop. }
  rewrite Hnext. apply IH.
  - cbn [env set_cycles_done]. now rewrite Henv.
  - cbn [_running set_cycles_done]. congruence.
Qed.

End HealthyRuns.





Lemma process_stop_is_cooperative_witness :
  lamp_reachable (env (running_world env_stop_second)) /\
  lamp_takes_all (env (running_world env_stop_second)) /\
  screen_shows (env (running_world env_stop_second)) /\
  (forall i, (i < 1)%nat ->
     stop_requested (env (running_world env_stop_second))
       (cycles_done (running_world env_stop_second) + i) = false) /\
  stop_requested (env (running_world env_stop_second))
    (cycles_done (running_world env_stop_second) + 1) = true /\
  _running (running_world env_stop_second) = true /\
  CommandPayload.cache_ok (convert_rgb_cache (running_world env_stop_second)) /\
  (1 < 9)%nat /\
  exists w',
    Ambilight.process 9 sample_ambilight (running_world env_stop_second) =
    (Ambilight.Returned, w') /\
    _running w' = false /\
    cycles_done w' = 2%nat /\
    written_bytes (trace w') =
    [color_wire env_stop_second 0 0; color_wire env_stop_second 1 1].
Proof.
  assert (Hreach : lamp_reachable (env (running_world env_stop_second)))
    by (intros k; reflexivity).
  assert (Htakes : lamp_takes_all (env (running_world env_stop_second)))
    by (intros k data; exists (String.length data);
        split; [reflexivity | apply Nat.le_refl]).
  assert (Hshows : screen_shows (env (running_world env_stop_second)))
    by (intros k box; discriminate).
  assert (Hbefore : forall i, (i < 1)%nat ->
            stop_requested (env (running_world env_stop_second))
              (cycles_done (running_world env_stop_second) + i) = false)
    by (intros [| i] Hi; [reflexivity | lia]).
  assert (Hstop : stop_requested (env (running_world env_stop_second))
                    (cycles_done (running_world env_stop_second) + 1) = true)
    by reflexivity.
  assert (Hrun : _running (running_world env_stop_second) = true) by reflexivity.
  assert (Hcache : CommandPayload.cache_ok
                     (convert_rgb_cache (running_world env_stop_second)))
    by constructor.
  assert (Hfuel : (1 < 9)%nat) by lia.
  repeat (split; [first [exact Hreach | exact Htakes | exact Hshows
                        | exact Hbefore | exact Hstop | exact Hrun
                        | exact Hcache | exact Hfuel] |]).
  exact (process_stop_is_cooperative sample_ambilight 1 9
           (running_world env_stop_second)
           Hreach Htakes Hshows Hbefore Hstop Hrun Hcache Hfuel).
Defined.

Lemma process_never_returns_unasked_witness :
  (forall k, stop_requested (env (started_world env_second_refused)) k = false) /\
  _running (started_world env_second_refused) = true /\
  fst (Ambilight.process 4 sample_ambilight (started_world env_second_refused))
  <> Ambilight.Returned.
Proof.
  assert (Hstop : forall k,
            stop_requested (env (started_world env_second_refused)) k = false)
    by (intros k; vm_compute; reflexivity).
  assert (Hrun : _running (started_world env_second_refused) = true)
    by (vm_compute; reflexivity).
  split; [exact Hstop |]. split; [exact Hrun |].
  exact (process_never_returns_unasked sample_ambilight 4
           (started_world env_second_refused) Hstop Hrun).
Defined.

(** ** The main thread *)

Section MainThread.

Import Main.

(** With the flag up and no interrupt, the loop of [main] starts nothing
    and changes nothing. *)
Lemma serve_running_quiet (fuel pass : nat) (interrupt : nat -> option arrival)
    (self : Ambilight.t) (info_ : list string) (workers_ : nat) (w : world) :
  _running w = true ->
  (forall p, (p < fuel)%nat -> interrupt (pass + p)%nat = None) ->
  serve fuel pass interrupt self info_ workers_ w =
  (mkReport Spinning info_ workers_, w).
Proof.
  revert pass workers_. induction fuel as [| fuel IH]; intros pass workers_ Hrun Hquiet;
    cbn [serve]; [reflexivity |].
  rewrite <- (Nat.add_0_r pass) at 1. rewrite Hquiet by lia.
  rewrite (start_is_noop_while_running self w Hrun).
  apply IH; [exact Hrun |].
  intros p Hp. replace (S pass + p)%nat with (pass + S p)%nat by lia.
  apply Hquiet. lia.
Qed.

(** With the flag up, the first interrupt ends the loop: in the handler
    when it arrives under the [try], uncaught when it does not. *)
Lemma serve_running_interrupted (j fuel pass : nat)
    (interrupt : nat -> option arrival) (a : arrival)
    (self : Ambilight.t) (info_ : list string) (workers_ : nat) (w : world) :
  _running w = true ->
  (forall p, (p < j)%nat -> interrupt (pass + p)%nat = None) ->
  interrupt (pass + j)%nat = Some a ->
  (j < fuel)%nat ->
  serve fuel pass interrupt self info_ workers_ w =
  match a with
  | OutsideTry => (mkReport Interrupted info_ workers_, w)
  | _ => (mkReport (Exit 1) (info_ ++ ["GoodBye!"])%list workers_,
          set_running false w)
  end.
Proof.
  revert fuel pass. induction j as [| j IH]; intros fuel pass Hrun Hquiet Hint Hfuel;
    (destruct fuel as [| fuel]; [lia |]); cbn [serve].
  - rewrite Nat.add_0_r in Hint. rewrite Hint.
    destruct a; unfold goodbye; rewrite ?(start_is_noop_while_running self w Hrun),
      ?Hrun; reflexivity.
  - rewrite <- (Nat.add_0_r pass) at 1. rewrite Hquiet by lia.
    rewrite (start_is_noop_while_running self w Hrun).
    apply IH; [exact Hrun | | | lia].
    + intros p Hp. replace (S pass + p)%nat with (pass + S p)%nat by lia.
      apply Hquiet. lia.
    + replace (S pass + j)%nat with (pass + S j)%nat by lia. exact Hint.
Qed.

(** X13.  [main] first sends the brightness command, 100 with the default
    effect and duration, to port 55443 of the address it was given, over
    one socket.  If that connection is refused or the send fails, the
    exception leaves [main]: nothing is logged at level INFO, no worker is
    started and the flag is down.  The main thread adds nothing else to
    the trace. *)
Theorem main_startup (ip : string) (interrupt : nat -> option arrival) (fuel : nat)
    (w : world) :
  let k := sockets_made w in
  let data := encoded (brightness_command w 100) (_next_id w + 1) in
  let done := main ip interrupt fuel w in
  _next_id (snd done) = _next_id w + 1 /\
  match connect_result (env w) k with
  | Some e =>
      fst done = mkReport (Uncaught e) [] 0 /\
      _running (snd done) = false /\
      trace (snd done) = (trace w ++ [EvSocket k; EvConnectFailed k ip 55443])%list
  | None =>
      match send_result (env w) k data with
      | Raise e =>
          fst done = mkReport (Uncaught e) [] 0 /\
          _running (snd done) = false /\
          trace (snd done) =
          (trace w ++ [EvSocket k; EvConnect k ip 55443; EvSendFailed k; EvClose k])%list
      | Ok n =>
          (exists more, info (fst done) = start_line ip :: more) /\
          trace (snd done) =
          (trace w ++ [EvSocket k; EvConnect k ip 55443;
                       EvSend k (substring 0 (Nat.min n (String.length data)) data);
                       EvClose k])%list
      end
  end.
Proof.
  intros k data done. subst done. unfold main.
  rewrite init_unfold, send_command_cases.
  cbn [env set_next_id set_running sockets_made _next_id LampController.ip
       LampController.port].
  unfold Ambilight.default_initial_brightness, LampController.default_port.
  fold (brightness_command w 100). fold k data.
  destruct (connect_result (env w) k) as [e |];
    [| destruct (send_result (env w) k data) as [n | e]];
    cbn [fst snd after_send_command trace _next_id _running set_next_id set_running];
    try (repeat split; reflexivity).
  set (w1 := after_send_command _ _).
  assert (Hserve : forall f p inf wk w0,
             exists more b,
               info (fst (serve f p interrupt
                            (Ambilight.mk ScreenController.instance
                               (LampController.mk ip 55443)
                               Ambilight.default_refresh_rate) inf wk w0)) =
               (inf ++ more)%list /\
               snd (serve f p interrupt
                      (Ambilight.mk ScreenController.instance
                         (LampController.mk ip 55443)
                         Ambilight.default_refresh_rate) inf wk w0) =
               set_running b w0).
  { induction f as [| f IH]; intros p inf wk w0; cbn [serve].
    - exists [], (_running w0). rewrite app_nil_r. split; [reflexivity |].
      destruct w0; reflexivity.
    - destruct (interrupt p) as [[| | |] |].
      + exists [], (_running w0). rewrite app_nil_r. split; [reflexivity |].
        destruct w0; reflexivity.
      + exists ["GoodBye!"], false. split; reflexivity.
      + exists ["GoodBye!"], false.
        unfold goodbye, Ambilight.stop, modify.
        destruct (_running w0); split; reflexivity.
      + exists ["GoodBye!"], false.
        unfold goodbye, Ambilight.stop, Ambilight.start, bind, gets, modify, ret.
        destruct (_running w0); split; reflexivity.
      + unfold Ambilight.start, bind, gets, modify, ret.
        destruct (_running w0) eqn:Hrun.
        * apply IH.
        * destruct (IH (S p) inf (S wk) (set_running true w0)) as (more & b & Hi & Hw).
          exists more, b. split; [exact Hi |]. rewrite Hw. reflexivity. }
  destruct (Hserve fuel 0%nat [start_line ip] 0%nat w1) as (more & b & Hinfo & Hworld).
  split; [rewrite Hworld; reflexivity |].
  split; [exists more; exact Hinfo |].
  rewrite Hworld. reflexivity.
Qed.

(** The world [main] hands to its loop when the start-up command went
    through, and the object it built. *)
Lemma main_after_startup (ip : string) (interrupt : nat -> option arrival)
    (fuel n : nat)
    (w : world) :
  connect_result (env w) (sockets_made w) = None ->
  send_result (env w) (sockets_made w)
    (encoded (brightness_command w 100) (_next_id w + 1)) = Ok n ->
  exists self w1,
    main ip interrupt fuel w = serve fuel 0 interrupt self [start_line ip] 0 w1 /\
    _running w1 = false.
Proof.
  intros Hconnect Hsend. unfold main.
  rewrite init_unfold, send_command_cases.
  cbn [env set_next_id set_running sockets_made _next_id].
  unfold Ambilight.default_initial_brightness.
  fold (brightness_command w 100).
  rewrite Hconnect, Hsend.
  eexists _, _. split; reflexivity.
Qed.

(** X14.  When the start-up command goes through and no interrupt comes,
    [main] starts exactly one worker, in its first pass, however many
    passes it makes after that; it has logged its start line and nothing
    else, and the flag is up. *)
Theorem main_starts_one_worker (ip : string) (interrupt : nat -> option arrival)
    (fuel n : nat) (w : world) :
  connect_result (env w) (sockets_made w) = None ->
  send_result (env w) (sockets_made w)
    (encoded (brightness_command w 100) (_next_id w + 1)) = Ok n ->
  (forall p, (p < S fuel)%nat -> interrupt p = None) ->
  fst (main ip interrupt (S fuel) w) = mkReport Spinning [start_line ip] 1 /\
  _running (snd (main ip interrupt (S fuel) w)) = true.
Proof.
  intros Hconnect Hsend Hquiet.
  destruct (main_after_startup ip interrupt (S fuel) n w Hconnect Hsend)
    as (self & w1 & -> & Hdown).
  cbn [serve]. rewrite Hquiet by lia.
  unfold Ambilight.start, bind, gets, modify, ret. rewrite Hdown.
  rewrite serve_running_quiet; [split; reflexivity | reflexivity |].
  intros p Hp. apply Hquiet. lia.
Qed.

(** X15.  When the start-up command goes through and the first
    [KeyboardInterrupt] reaches the main thread in pass [j] of its loop,
    what happens depends on where it arrives.  Under the [try] (before,
    inside or after the call of [start]), [main] lowers the flag, logs its
    good-bye after its start line and exits with status 1.  At the loop
    jump, outside the [try], nobody catches it: [main] ends in the
    interrupt with no good-bye and no [stop], so the flag stays up once a
    worker was started.  In every case at most one worker was started. *)
Theorem main_interrupted (ip : string) (interrupt : nat -> option arrival)
    (a : arrival) (j fuel n : nat) (w : world) :
  connect_result (env w) (sockets_made w) = None ->
  send_result (env w) (sockets_made w)
    (encoded (brightness_command w 100) (_next_id w + 1)) = Ok n ->
  (forall p, (p < j)%nat -> interrupt p = None) ->
  interrupt j = Some a ->
  (j < fuel)%nat ->
  let done := main ip interrupt fuel w in
  match a with
  | OutsideTry =>
      fst done = mkReport Interrupted [start_line ip] (Nat.min j 1) /\
      _running (snd done) = negb (Nat.eqb j 0)
  | AfterStart =>
      fst done = mkReport (Exit 1) [start_line ip; "GoodBye!"] 1 /\
      _running (snd done) = false
  | BeforeStart | InsideStart =>
      fst done = mkReport (Exit 1) [start_line ip; "GoodBye!"] (Nat.min j 1) /\
      _running (snd done) = false
  end.
Proof.
  intros Hconnect Hsend Hquiet Hint Hfuel done. subst done.
  destruct (main_after_startup ip interrupt fuel n w Hconnect Hsend)
    as (self & w1 & -> & Hdown).
  destruct fuel as [| fuel]; [lia |]. cbn [serve].
  destruct j as [| j].
  - rewrite Hint.
    destruct a; unfold goodbye, Ambilight.start, Ambilight.stop, bind, gets,
      modify, ret; rewrite ?Hdown; cbn [fst snd _running set_running Nat.min
                                         Nat.eqb negb];
      split; try reflexivity; exact Hdown.
  - rewrite Hquiet by lia.
    replace (Nat.min (S j) 1) with 1%nat by lia.
    unfold Ambilight.start, bind, gets, modify, ret. rewrite Hdown.
    rewrite (serve_running_interrupted j fuel 1 interrupt a); try reflexivity;
      try lia.
    + destruct a; split; reflexivity.
    + intros p Hp. apply Hquiet. lia.
    + exact Hint.
Qed.

End MainThread.

Lemma main_starts_one_worker_witness :
  connect_result (env (initial_world env_healthy))
    (sockets_made (initial_world env_healthy)) = None /\
  send_result (env (initial_world env_healthy))
    (sockets_made (initial_world env_healthy))
    (encoded (brightness_command (initial_world env_healthy) 100)
       (_next_id (initial_world env_healthy) + 1)) = Ok 85%nat /\
  (forall p, (p < 5)%nat -> (fun _ : nat => @None Main.arrival) p = None) /\
  fst (Main.main "192.168.1.50" (fun _ => None) 5 (initial_world env_healthy)) =
  Main.mkReport Main.Spinning [Main.start_line "192.168.1.50"] 1 /\
  _running (snd (Main.main "192.168.1.50" (fun _ => None) 5
                   (initial_world env_healthy))) = true.
Proof.
  assert (Hconnect : connect_result (env (initial_world env_healthy))
            (sockets_made (initial_world env_healthy)) = None) by reflexivity.
  assert (Hsend : send_result (env (initial_world env_healthy))
            (sockets_made (initial_world env_healthy))
            (encoded (brightness_command (initial_world env_healthy) 100)
               (_next_id (initial_world env_healthy) + 1)) = Ok 85%nat)
    by (vm_compute; reflexivity).
  assert (Hquiet : forall p, (p < 5)%nat ->
                     (fun _ : nat => @None Main.arrival) p = None)
    by reflexivity.
  split; [exact Hconnect |]. split; [exact Hsend |]. split; [exact Hquiet |].
  exact (main_starts_one_worker "192.168.1.50" (fun _ => None) 4 85
           (initial_world env_healthy) Hconnect Hsend Hquiet).
Defined.

Lemma main_interrupted_witness :
  connect_result (env (initial_world env_healthy))
    (sockets_made (initial_world env_healthy)) = None /\
  send_result (env (initial_world env_healthy))
    (sockets_made (initial_world env_healthy))
    (encoded (brightness_command (initial_world env_healthy) 100)
       (_next_id (initial_world env_healthy) + 1)) = Ok 85%nat /\
  (forall p, (p < 3)%nat -> interrupt_outside_at 3 p = None) /\
  interrupt_outside_at 3 3 = Some Main.OutsideTry /\
  (3 < 10)%nat /\
  fst (Main.main "192.168.1.50" (interrupt_outside_at 3) 10
         (initial_world env_healthy)) =
  Main.mkReport Main.Interrupted [Main.start_line "192.168.1.50"] 1 /\
  _running (snd (Main.main "192.168.1.50" (interrupt_outside_at 3) 10
                   (initial_world env_healthy))) = true.
Proof.
  assert (Hconnect : connect_result (env (initial_world env_healthy))
            (sockets_made (initial_world env_healthy)) = None) by reflexivity.
  assert (Hsend : send_result (env (initial_world env_healthy))
            (sockets_made (initial_world env_healthy))
            (encoded (brightness_command (initial_world env_healthy) 100)
               (_next_id (initial_world env_healthy) + 1)) = Ok 85%nat)
    by (vm_compute; reflexivity).
  assert (Hquiet : forall p, (p < 3)%nat -> interrupt_outside_at 3 p = None).
  { intros p Hp. unfold interrupt_outside_at.
    destruct (Nat.eqb_spec p 3); [lia | reflexivity]. }
  assert (Hint : interrupt_outside_at 3 3 = Some Main.OutsideTry) by reflexivity.
  assert (Hfuel : (3 < 10)%nat) by lia.
  split; [exact Hconnect |]. split; [exact Hsend |]. split; [exact Hquiet |].
  split; [exact Hint |]. split; [exact Hfuel |].
  exact (main_interrupted "192.168.1.50" (interrupt_outside_at 3)
           Main.OutsideTry 3 10 85
           (initial_world env_healthy) Hconnect Hsend Hquiet Hint Hfuel).
Defined.

(** The same interrupt, arriving under the [try]: [main] says good-bye
    and exits with status 1, the flag down. *)
Lemma main_interrupted_under_try :
  fst (Main.main "192.168.1.50"
         (fun p => if Nat.eqb p 3 then Some Main.BeforeStart else None) 10
         (initial_world env_healthy)) =
  Main.mkReport (Main.Exit 1) [Main.start_line "192.168.1.50"; "GoodBye!"] 1 /\
  _running (snd (Main.main "192.168.1.50"
                   (fun p => if Nat.eqb p 3 then Some Main.BeforeStart else None) 10
                   (initial_world env_healthy))) = false.
Proof. split; vm_compute; reflexivity. Qed.

(** ** The wire text *)

Section WireText.

Import CommandPayload.

Lemma all_chars_app (p : ascii -> bool) (s1 s2 : string) :
  all_chars p (s1 ++ s2) = all_chars p s1 && all_chars p s2.
Proof.
  induction s1 as [| c s1 IH]; cbn [append all_chars]; [reflexivity |].
  now rewrite IH, andb_assoc.
Qed.

Lemma all_chars_impl (p q : ascii -> bool) (s : string) :
  (forall c, p c = true -> q c = true) ->
  all_chars p s = true -> all_chars q s = true.
Proof.
  intros Hpq. induction s as [| c s IH]; cbn [all_chars]; [reflexivity |].
  rewrite !andb_true_iff. intros [Hc Hs]. split; auto.
Qed.

Lemma number_char_printable (c : ascii) : number_char c = true -> printable c = true.
Proof.
  unfold number_char, printable.
  rewrite orb_true_iff, !andb_true_iff, N.eqb_eq, !N.leb_le. lia.
Qed.

Lemma uint_digits (d : Decimal.uint) :
  all_chars number_char (NilEmpty.string_of_uint d) = true.
Proof. induction d; cbn [NilEmpty.string_of_uint all_chars]; auto. Qed.

Lemma dumps_int_digits (z : Z) : all_chars number_char (dumps_int z) = true.
Proof.
  unfold dumps_int, NilZero.string_of_int, NilZero.string_of_uint.
  destruct (Z.to_int z) as [d | d]; destruct d;
    try reflexivity; apply (uint_digits (_ _)) || (cbn [all_chars]; apply (uint_digits (_ _))).
Qed.

Lemma dumps_int_head (z : Z) :
  exists c s, dumps_int z = String c s /\ number_char c = true.
Proof.
  pose proof (dumps_int_digits z) as Hall.
  assert (Hne : dumps_int z <> EmptyString).
  { unfold dumps_int, NilZero.string_of_int, NilZero.string_of_uint.
    destruct (Z.to_int z) as [d | d]; destruct d; discriminate. }
  destruct (dumps_int z) as [| c s]; [congruence |].
  cbn [all_chars] in Hall. apply andb_true_iff in Hall. exists c, s. tauto.
Qed.

Lemma dumps_int_inj (z1 z2 : Z) : dumps_int z1 = dumps_int z2 -> z1 = z2.
Proof.
  unfold dumps_int. intros Heq.
  assert (Hok : forall z, Z.to_int z <> Decimal.Pos Decimal.Nil /\
                          Z.to_int z <> Decimal.Neg Decimal.Nil).
  { intros [| p | p]; cbn; split; try discriminate;
      intros [= H]; now apply DecimalPos.Unsigned.to_uint_nonnil in H. }
  pose proof (NilZero.isi _ (proj1 (Hok z1)) (proj2 (Hok z1))) as H1.
  pose proof (NilZero.isi _ (proj1 (Hok z2)) (proj2 (Hok z2))) as H2.
  rewrite Heq, H2 in H1. injection H1 as H1.
  rewrite <- (DecimalZ.of_to z1), <- (DecimalZ.of_to z2). now rewrite H1.
Qed.

(** A text cut where its characters of one kind end is cut in one way. *)
Lemma split_unique (p : ascii -> bool) (a1 a2 r1 r2 : string) :
  all_chars p a1 = true -> all_chars p a2 = true ->
  starts_outside p r1 = true -> starts_outside p r2 = true ->
  a1 ++ r1 = a2 ++ r2 -> a1 = a2 /\ r1 = r2.
Proof.
  revert a2. induction a1 as [| c1 a1 IH]; intros [| c2 a2];
    cbn [all_chars append]; intros H1 H2 Hr1 Hr2 Heq.
  - auto.
  - subst r1. cbn [starts_outside] in Hr1.
    apply andb_true_iff in H2. destruct H2 as [H2 _]. now rewrite H2 in Hr1.
  - subst r2. cbn [starts_outside] in Hr2.
    apply andb_true_iff in H1. destruct H1 as [H1 _]. now rewrite H1 in Hr2.
  - injection Heq as -> Heq.
    apply andb_true_iff in H1, H2.
    destruct (IH a2) as [-> ->]; tauto.
Qed.

Lemma dumps_int_split (z1 z2 : Z) (r1 r2 : string) :
  starts_outside number_char r1 = true -> starts_outside number_char r2 = true ->
  dumps_int z1 ++ r1 = dumps_int z2 ++ r2 -> z1 = z2 /\ r1 = r2.
Proof.
  intros Hr1 Hr2 Heq.
  destruct (split_unique number_char _ _ _ _ (dumps_int_digits z1)
              (dumps_int_digits z2) Hr1 Hr2 Heq) as [Hz Hr].
  split; [now apply dumps_int_inj | exact Hr].
Qed.

Lemma escape_char_printable (c : ascii) : all_chars printable (escape_char c) = true.
Proof. destruct c as [[|] [|] [|] [|] [|] [|] [|] [|]]; reflexivity. Qed.

Lemma escape_string_printable (s : string) :
  all_chars printable (escape_string s) = true.
Proof.
  induction s as [| c s IH]; cbn [escape_string]; [reflexivity |].
  now rewrite all_chars_app, escape_char_printable, IH.
Qed.

Lemma dumps_str_printable (s : string) : all_chars printable (dumps_str s) = true.
Proof.
  unfold dumps_str. now rewrite !all_chars_app, escape_string_printable.
Qed.

Lemma dumps_int_printable (z : Z) : all_chars printable (dumps_int z) = true.
Proof.
  apply (all_chars_impl number_char); [apply number_char_printable |].
  apply dumps_int_digits.
Qed.

Lemma unescape_escape (c : ascii) (rest : string) :
  unescape_head (escape_char c ++ rest) = Some (c, rest).
Proof. destruct c as [[|] [|] [|] [|] [|] [|] [|] [|]]; reflexivity. Qed.

Lemma escape_split (s1 s2 r1 r2 : string) :
  escape_string s1 ++ quote ++ r1 = escape_string s2 ++ quote ++ r2 ->
  s1 = s2 /\ r1 = r2.
Proof.
  revert s2. induction s1 as [| c1 s1 IH]; intros [| c2 s2];
    cbn [escape_string]; rewrite ?append_assoc; intros Heq.
  - injection Heq as ->. auto.
  - apply (f_equal unescape_head) in Heq. rewrite unescape_escape in Heq.
    discriminate.
  - apply (f_equal unescape_head) in Heq. rewrite unescape_escape in Heq.
    discriminate.
  - pose proof (f_equal unescape_head Heq) as Hhead.
    rewrite !unescape_escape in Hhead. injection Hhead as -> Hrest.
    destruct (IH s2 Hrest) as [-> ->]. auto.
Qed.

Lemma dumps_str_split (s1 s2 r1 r2 : string) :
  dumps_str s1 ++ r1 = dumps_str s2 ++ r2 -> s1 = s2 /\ r1 = r2.
Proof.
  unfold dumps_str. rewrite !append_assoc. intros Heq.
  injection Heq as Heq. now apply escape_split.
Qed.

Lemma json_dumps_list (l : list json) :
  json_dumps (JList l) = "[" ++ join_items l ++ "]".
Proof.
  reflexivity.
Qed.

Lemma item_printable (p : param) :
  all_chars printable (json_dumps (param_json p)) = true.
Proof.
  destruct p; cbn [param_json json_dumps];
    [apply dumps_int_printable | apply dumps_str_printable].
Qed.

Lemma params_printable (ps : list param) :
  all_chars printable (join_items (map param_json ps)) = true.
Proof.
  induction ps as [| p [| q rest] IH]; cbn [map join_items]; [reflexivity | |].
  - apply item_printable.
  - rewrite !all_chars_app, item_printable. exact IH.
Qed.

(** The text of a command, piece by piece. *)
Lemma encoded_shape (payload : t) (next : Z) :
  encoded payload next =
  dq "{'id': " ++ dumps_int (id payload) ++
  dq ", 'method': " ++ dumps_str (method payload) ++
  dq ", 'params': [" ++ join_items (map param_json (params payload)) ++
  dq "], '_next_id': " ++ dumps_int next ++ "}" ++ CRLF.
Proof.
  unfold encoded.
  rewrite json_dumps_object4, json_dumps_list, !append_assoc. reflexivity.
Qed.

(** X16.  Whatever a command carries, its bytes are one line: printable
    ASCII characters only, followed by CR LF.  A line break, a quote or
    any other character outside [' '..'~'] in a string of the command is
    escaped, so the one CR LF of the text is the one that ends it. *)
Theorem as_bytes_one_line (payload : t) (w : world) :
  exists line,
    as_bytes payload w = (Ok (line ++ CRLF), w) /\
    all_chars printable line = true.
Proof.
  rewrite as_bytes_spec, encoded_shape.
  exists (dq "{'id': " ++ dumps_int (id payload) ++
          dq ", 'method': " ++ dumps_str (method payload) ++
          dq ", 'params': [" ++ join_items (map param_json (params payload)) ++
          dq "], '_next_id': " ++ dumps_int (_next_id w) ++ "}").
  split.
  - now rewrite !append_assoc.
  - now rewrite !all_chars_app, !dumps_int_printable, dumps_str_printable,
      params_printable.
Qed.

Lemma append_inj_l (a x y : string) : a ++ x = a ++ y -> x = y.
Proof.
  induction a as [| c a IH]; cbn [append]; [auto |].
  intros [= H]. auto.
Qed.

Lemma item_split (p1 p2 : param) (r1 r2 : string) :
  starts_outside number_char r1 = true -> starts_outside number_char r2 = true ->
  json_dumps (param_json p1) ++ r1 = json_dumps (param_json p2) ++ r2 ->
  p1 = p2 /\ r1 = r2.
Proof.
  intros Hr1 Hr2.
  destruct p1 as [z1 | s1], p2 as [z2 | s2]; cbn [param_json json_dumps]; intros Heq.
  - destruct (dumps_int_split _ _ _ _ Hr1 Hr2 Heq) as [-> ->]. auto.
  - destruct (dumps_int_head z1) as (c & s & Hz & Hc). rewrite Hz in Heq.
    unfold dumps_str in Heq. injection Heq as -> _. discriminate.
  - destruct (dumps_int_head z2) as (c & s & Hz & Hc). rewrite Hz in Heq.
    unfold dumps_str in Heq. injection Heq as <- _. discriminate.
  - destruct (dumps_str_split _ _ _ _ Heq) as [-> ->]. auto.
Qed.

Lemma item_head (p : param) (r : string) :
  exists c s,
    json_dumps (param_json p) ++ r = String c s /\
    (number_char c = true \/ c = "034"%char).
Proof.
  destruct p as [z | s]; cbn [param_json json_dumps].
  - destruct (dumps_int_head z) as (c & s & -> & Hc). eexists _, _. split;
      [reflexivity | auto].
  - unfold dumps_str. eexists _, _. split; [reflexivity | auto].
Qed.

Lemma params_split (ps1 ps2 : list param) (r1 r2 : string) :
  join_items (map param_json ps1) ++ "]" ++ r1 =
  join_items (map param_json ps2) ++ "]" ++ r2 ->
  ps1 = ps2 /\ r1 = r2.
Proof.
  revert ps2. induction ps1 as [| p1 t1 IH]; intros [| p2 t2].
  - cbn. intros [= ->]. auto.
  - cbn [map join_items]. intros Heq. exfalso.
    destruct t2 as [| q2 t2]; cbn [map] in Heq; rewrite ?append_assoc in Heq;
      match type of Heq with _ = json_dumps (param_json ?p) ++ ?r =>
        destruct (item_head p r) as (c & s & Hhead & Hc); rewrite Hhead in Heq
      end; injection Heq as <- _; destruct Hc as [Hc | Hc]; discriminate.
  - cbn [map join_items]. intros Heq. exfalso.
    destruct t1 as [| q1 t1]; cbn [map] in Heq; rewrite ?append_assoc in Heq;
      match type of Heq with json_dumps (param_json ?p) ++ ?r = _ =>
        destruct (item_head p r) as (c & s & Hhead & Hc); rewrite Hhead in Heq
      end; injection Heq as -> _; destruct Hc as [Hc | Hc]; discriminate.
  - intros Heq.
    destruct t1 as [| q1 t1], t2 as [| q2 t2];
      cbn [map join_items] in Heq; rewrite ?append_assoc in Heq;
      apply item_split in Heq; try reflexivity; destruct Heq as [-> Hrest].
    + injection Hrest as ->. auto.
    + discriminate.
    + discriminate.
    + injection Hrest as Hrest.
      destruct (IH (q2 :: t2)) as [Ht ->].
      { cbn [map]. exact Hrest. }
      rewrite Ht. auto.
Qed.

Lemma encoded_inj (p1 p2 : t) (n1 n2 : Z) :
  encoded p1 n1 = encoded p2 n2 -> p1 = p2 /\ n1 = n2.
Proof.
  rewrite !encoded_shape. intros Heq.
  apply append_inj_l in Heq.
  apply dumps_int_split in Heq; try reflexivity. destruct Heq as [Hid Heq].
  apply append_inj_l in Heq.
  apply dumps_str_split in Heq. destruct Heq as [Hmethod Heq].
  apply append_inj_l in Heq.
  change (dq "], '_next_id': ") with ("]" ++ dq ", '_next_id': ") in Heq.
  rewrite !append_assoc in Heq.
  apply params_split in Heq. destruct Heq as [Hparams Heq].
  apply append_inj_l in Heq.
  apply dumps_int_split in Heq; try reflexivity. destruct Heq as [Hnext _].
  split; [| exact Hnext].
  destruct p1, p2; cbn [id method params] in *. congruence.
Qed.

(** X17.  On the strings of this model, which hold code points below 256
    only (every string the module builds itself is of that kind), the
    encoding loses nothing: two commands that differ in identifier, method
    or parameters, or that are encoded at different values of the class
    counter, never get the same bytes from [as_bytes]. *)
Theorem as_bytes_distinct (p1 p2 : t) (w1 w2 : world) :
  p1 <> p2 \/ _next_id w1 <> _next_id w2 ->
  fst (as_bytes p1 w1) <> fst (as_bytes p2 w2).
Proof.
  rewrite !as_bytes_spec. cbn [fst]. intros Hdiff Heq.
  assert (Hsame : encoded p1 (_next_id w1) = encoded p2 (_next_id w2))
    by congruence.
  apply encoded_inj in Hsame. tauto.
Qed.

Lemma as_bytes_distinct_witness :
  (sample_payload <> brightness_command (initial_world env_healthy) 80 \/
   _next_id (world_after_first_command env_healthy) <>
   _next_id (world_after_first_command env_healthy)) /\
  fst (as_bytes sample_payload (world_after_first_command env_healthy)) <>
  fst (as_bytes (brightness_command (initial_world env_healthy) 80)
         (world_after_first_command env_healthy)).
Proof.
  assert (Hdiff :
    sample_payload <> brightness_command (initial_world env_healthy) 80 \/
    _next_id (world_after_first_command env_healthy) <>
    _next_id (world_after_first_command env_healthy))
    by (left; discriminate).
  split; [exact Hdiff |].
  exact (as_bytes_distinct sample_payload
           (brightness_command (initial_world env_healthy) 80)
           (world_after_first_command env_healthy)
           (world_after_first_command env_healthy) Hdiff).
Defined.

End WireText.
